(** * pdf-csv: the invoice extractor of [src/app.py]

    A shallow embedding of the table-discovery, Hebrew-normalisation and
    aggregation logic of [app.py], and the properties its specification
    states about it.

    Python [str] values are sequences of Unicode code points, so they are
    modelled as [list N]; literals are written as UTF-8 Rocq strings and
    decoded by [u].  Dictionaries are [gmap]s keyed by such strings.  The
    builtin [float] is an interface ([PyFloat]): the general theorems hold
    for every implementation of it, and closed examples run on a binary64
    instance. *)

From Stdlib Require Import String Ascii Floats Uint63 DecimalNat.
From stdpp Require Import base option list gmap.

Local Open Scope N_scope.
Local Open Scope list_scope.

(** ** Python strings *)

Abbreviation pystr := (list N).

Fixpoint utf8_go (need : nat) (acc : N) (bs : list N) : pystr :=
  match bs with
  | [] => []
  | b :: r =>
    match need with
    | O => if b <? 128 then b :: utf8_go 0 0 r
           else if b <? 224 then utf8_go 1 (b - 192) r
           else if b <? 240 then utf8_go 2 (b - 224) r
           else utf8_go 3 (b - 240) r
    | S O => (acc * 64 + (b - 128)) :: utf8_go 0 0 r
    | S n => utf8_go n (acc * 64 + (b - 128)) r
    end
  end.

(** [u "..."] is the code-point sequence of a UTF-8 literal. *)
Definition u (s : string) : pystr :=
  utf8_go 0 0 (map N_of_ascii (list_ascii_of_string s)).

Definition SP : N := 32.
Definition NL : N := 10.
Definition CR : N := 13.

(** [str.isspace] on one code point: the characters that [str.split()] and
    [str.strip()] treat as whitespace. *)
Definition py_isspace (c : N) : bool :=
  ((9 <=? c) && (c <=? 13)) || ((28 <=? c) && (c <=? 32))
  || (c =? 133) || (c =? 160) || (c =? 5760)
  || ((8192 <=? c) && (c <=? 8202))
  || (c =? 8232) || (c =? 8233) || (c =? 8239) || (c =? 8287) || (c =? 12288).

Fixpoint py_lstrip (s : pystr) : pystr :=
  match s with
  | [] => []
  | c :: r => if py_isspace c then py_lstrip r else s
  end.

Definition py_rstrip (s : pystr) : pystr := reverse (py_lstrip (reverse s)).

(** [s.strip()] *)
Definition py_strip (s : pystr) : pystr := py_rstrip (py_lstrip s).

(** [s.replace(c, new)] for a one-character [c]: every use in [app.py]
    replaces a single character. *)
Definition replace1 (c : N) (new : pystr) (s : pystr) : pystr :=
  flat_map (λ x, if x =? c then new else [x]) s.

Fixpoint split_go (w : pystr) (s : pystr) : list pystr :=
  match s with
  | [] => match w with [] => [] | _ => [w] end
  | c :: r =>
    if py_isspace c
    then match w with [] => split_go [] r | _ => w :: split_go [] r end
    else split_go (w ++ [c]) r
  end.

(** [s.split()]: the maximal runs of non-whitespace, left to right. *)
Definition py_split (s : pystr) : list pystr := split_go [] s.

(** [sep.join(l)] *)
Fixpoint py_join (sep : pystr) (l : list pystr) : pystr :=
  match l with
  | [] => []
  | x :: r => match r with [] => x | _ => x ++ sep ++ py_join sep r end
  end.

Fixpoint starts_with (p t : pystr) : bool :=
  match p, t with
  | [], _ => true
  | _ :: _, [] => false
  | a :: p', b :: t' => (a =? b) && starts_with p' t'
  end.

(** [p in t] on strings: [p] occurs in [t] as a contiguous substring. *)
Fixpoint contains (p t : pystr) : bool :=
  starts_with p t || match t with [] => false | _ :: t' => contains p t' end.

Definition digit_cp (d : N) : N := 48 + d.

Fixpoint uint_cps (d : Decimal.uint) : pystr :=
  match d with
  | Decimal.Nil => []
  | Decimal.D0 r => digit_cp 0 :: uint_cps r
  | Decimal.D1 r => digit_cp 1 :: uint_cps r
  | Decimal.D2 r => digit_cp 2 :: uint_cps r
  | Decimal.D3 r => digit_cp 3 :: uint_cps r
  | Decimal.D4 r => digit_cp 4 :: uint_cps r
  | Decimal.D5 r => digit_cp 5 :: uint_cps r
  | Decimal.D6 r => digit_cp 6 :: uint_cps r
  | Decimal.D7 r => digit_cp 7 :: uint_cps r
  | Decimal.D8 r => digit_cp 8 :: uint_cps r
  | Decimal.D9 r => digit_cp 9 :: uint_cps r
  end.

(** [str(i)] for a non-negative index. *)
Definition str_of_nat (i : nat) : pystr := uint_cps (Nat.to_uint i).

(** [f'col_{i}'] *)
Definition col_ (i : nat) : pystr := u "col_" ++ str_of_nat i.

(** ** The text normaliser, [fix_hebrew] *)

Definition reversed_patterns : list pystr :=
  [u "םע"; u "בלש"; u "הזוח"; u "םוכס"; u "רבטצמ"; u "ןובשח"; u "עוציב"].

(** [any(p in text for p in pats)] *)
Definition any_in (pats : list pystr) (text : pystr) : bool :=
  existsb (λ p, contains p text) pats.

Definition fix_hebrew (s : pystr) : pystr :=
  if bool_decide (s = []) then s
  else
    let text := py_strip s in
    let text := replace1 CR [SP] (replace1 NL [SP] text) in
    let text := py_join [SP] (py_split text) in
    if any_in reversed_patterns text then reverse text else text.

(** Whitespace normalisation as the specification words it: newline and
    carriage return become a space, every run of whitespace collapses to
    one space, the ends are trimmed. *)
Definition newline_to_space (c : N) : N :=
  if (c =? NL) || (c =? CR) then SP else c.

Fixpoint collapse_ws (in_ws : bool) (s : pystr) : pystr :=
  match s with
  | [] => []
  | c :: r =>
    if py_isspace c
    then (if in_ws then collapse_ws true r else SP :: collapse_ws true r)
    else c :: collapse_ws false r
  end.

Definition spec_normalize (s : pystr) : pystr :=
  py_strip (collapse_ws false (map newline_to_space s)).

(** ** Exceptions

    Operations that can raise return a [res]; [try_except] is the bare
    [try: ... except: ...] of [parse_num]. *)

Inductive exn : Type := IndexError | KeyError | ValueError | TypeError.

Inductive res (A : Type) : Type :=
  | Ret (a : A)
  | Raise (e : exn).
Arguments Ret {A} a.
Arguments Raise {A} e.

#[export] Instance res_ret : MRet res := @Ret.
#[export] Instance res_bind : MBind res :=
  λ A B k m, match m with Ret a => k a | Raise e => Raise e end.

Definition try_except {A} (body handler : res A) : res A :=
  match body with Ret a => Ret a | Raise _ => handler end.

(** [l[i]] for [0 <= i] *)
Definition index {A} (l : list A) (i : nat) : res A :=
  match l !! i with Some x => Ret x | None => Raise IndexError end.

(** [l[-1]] *)
Definition index_last {A} (l : list A) : res A :=
  match last l with Some x => Ret x | None => Raise IndexError end.

(** [for x in l: st = step(st, x)], stopping at the first exception. *)
Fixpoint for_each {A S} (step : S → A → res S) (l : list A) (st : S) : res S :=
  match l with
  | [] => Ret st
  | x :: r => st' ← step st x; for_each step r st'
  end.

(** ** Floats

    What [app.py] uses of the builtin [float]: the constant [0.0], [+],
    comparison with zero (also the truth value of a float), conversion of
    an [int], and [float(s)] on a string, which raises [ValueError] on text
    that is no number ([None] here).  The one law is [0.0 == 0]. *)

Class PyFloat (F : Type) : Type := {
  f0 : F;
  fadd : F → F → F;
  feq0 : F → bool;
  float_of_int : Z → F;
  float_of_str : pystr → option F;
  feq0_f0 : feq0 f0 = true;
}.

(** A binary64 instance for running examples.  [float(s)] is implemented
    for plain decimal literals [[+-]digits[.digits]] with at most 18
    fraction digits and a mantissa below 2^53, where one correctly rounded
    division gives the value the builtin returns; any other text is
    rejected.  No general theorem depends on this instance. *)
Module Binary64.

Fixpoint digits_val (acc : Z) (s : pystr) : option Z :=
  match s with
  | [] => Some acc
  | c :: r =>
    if (48 <=? c) && (c <=? 57)
    then digits_val (10 * acc + Z.of_N (c - 48))%Z r
    else None
  end.

Fixpoint before_dot (s : pystr) : pystr :=
  match s with
  | [] => []
  | c :: r => if c =? 46 then [] else c :: before_dot r
  end.

Fixpoint after_dot (s : pystr) : pystr :=
  match s with
  | [] => []
  | c :: r => if c =? 46 then r else after_dot r
  end.

Definition unsigned_literal (s : pystr) : option float :=
  let ip := before_dot s in
  let fp := after_dot s in
  if bool_decide (ip = [] ∧ fp = []) then None
  else
    m ← digits_val 0 (ip ++ fp);
    let k := length fp in
    if (m <? 2 ^ 53)%Z && (k <=? 18)%nat
    then Some (PrimFloat.div (PrimFloat.of_uint63 (Uint63.of_Z m))
                             (PrimFloat.of_uint63 (Uint63.of_Z (10 ^ Z.of_nat k))))
    else None.

Definition literal (s : pystr) : option float :=
  match s with
  | 43 :: r => unsigned_literal r
  | 45 :: r => PrimFloat.opp <$> unsigned_literal r
  | _ => unsigned_literal s
  end.

Definition of_int (z : Z) : float :=
  SF2Prim (binary_normalize prec emax z 0 false).

#[global] Instance binary64 : PyFloat float := {|
  f0 := PrimFloat.zero;
  fadd := PrimFloat.add;
  feq0 := λ x, PrimFloat.eqb x PrimFloat.zero;
  float_of_int := of_int;
  float_of_str := literal;
  feq0_f0 := eq_refl;
|}.

End Binary64.

(** ** The extractor *)

(** A table cell as pdfplumber gives it: a string or [None]; a table is a
    list of rows. *)
Abbreviation cell := (option pystr).
Abbreviation table := (list (list cell)).

Section Extractor.

Context {F : Type} {PF : PyFloat F}.

(** Values held by the result: [int] (only the initial totals and the
    default of [p.get(billed_col, 0)]), [float] and [str]. *)
Inductive pyval : Type :=
  | VInt (z : Z)
  | VFloat (x : F)
  | VStr (s : pystr).

(** [bool(v)] *)
Definition val_truthy (v : pyval) : bool :=
  match v with
  | VInt z => negb (z =? 0)%Z
  | VFloat x => negb (feq0 x)
  | VStr s => negb (bool_decide (s = []))
  end.

(** [isinstance(v, (int, float))] *)
Definition is_number (v : pyval) : bool :=
  match v with VStr _ => false | _ => true end.

(** [a + b] on numbers; a [str] operand is a [TypeError]. *)
Definition py_add (a b : pyval) : res pyval :=
  match a, b with
  | VInt x, VInt y => Ret (VInt (x + y))
  | VInt x, VFloat y => Ret (VFloat (fadd (float_of_int x) y))
  | VFloat x, VInt y => Ret (VFloat (fadd x (float_of_int y)))
  | VFloat x, VFloat y => Ret (VFloat (fadd x y))
  | _, _ => Raise TypeError
  end.

(** [float(s)] *)
Definition py_float (s : pystr) : res F :=
  match float_of_str s with Some x => Ret x | None => Raise ValueError end.

Definition COMMA : N := 44.
Definition SHEKEL : N := 8362.
Definition PERCENT : N := 37.

(** [str(s).replace(',', '').replace('₪', '').replace('%', '').strip()] *)
Definition cleaned (s : pystr) : pystr :=
  py_strip (replace1 PERCENT [] (replace1 SHEKEL [] (replace1 COMMA [] s))).

(** [parse_num(s)]; [s] is [None] or a string. *)
Definition parse_num (s : option pystr) : res F :=
  match s with
  | None => Ret f0
  | Some s =>
    try_except
      (if bool_decide (cleaned s = []) then Ret f0 else py_float (cleaned s))
      (Ret f0)
  end.

(** A phase: one dictionary per kept row. *)
Abbreviation phase := (gmap pystr pyval).

(** [bool(c)] for a cell *)
Definition cell_truthy (c : cell) : bool :=
  match c with Some (_ :: _) => true | _ => false end.

(** [str(c)] for a cell *)
Definition py_str (c : cell) : pystr :=
  match c with Some s => s | None => u "None" end.

(** [' '.join(str(c) for c in row if c)] *)
Definition joined_cells (row : list cell) : pystr :=
  py_join [SP] (py_str <$> List.filter cell_truthy row).

Record data : Type := Data {
  contract_total : pyval;
  billed_total : pyval;
  phases : list phase;
  headers : list pystr;
}.

Definition set_headers (h : list pystr) (d : data) : data :=
  Data (contract_total d) (billed_total d) (phases d) h.
Definition append_phase (p : phase) (d : data) : data :=
  Data (contract_total d) (billed_total d) (phases d ++ [p]) (headers d).
Definition set_contract_total (v : pyval) (d : data) : data :=
  Data v (billed_total d) (phases d) (headers d).
Definition set_billed_total (v : pyval) (d : data) : data :=
  Data (contract_total d) v (phases d) (headers d).

Definition zero_literals : list pystr := [u "0"; u "0.0"; u "0.00"].

(** The body of [for i, cell in enumerate(row)], lines 189-203. *)
Definition store_cell (hdrs : list pystr) (ph : phase) (ic : nat * cell) : res phase :=
  let '(i, c) := ic in
  col_name ← (if (i <? length hdrs)%nat then index hdrs i else Ret (col_ i));
  let raw_val := if cell_truthy c then py_str c else [] in
  let raw_val := replace1 CR [SP] (replace1 NL [SP] raw_val) in
  let raw_val := py_join [SP] (py_split raw_val) in
  let fixed_val := fix_hebrew raw_val in
  num_val ← parse_num (Some raw_val);
  if negb (feq0 num_val) || bool_decide (py_strip raw_val ∈ zero_literals)
  then Ret (<[col_name := VFloat num_val]> ph)
  else Ret (<[col_name := VStr fixed_val]> ph).

Definition skip_words : list pystr :=
  [u "סכום כולל"; u "ללוכ םוכס"; u "סכום מצטבר"; u "רבטצמ םוכס";
   u "סה" ++ [34] ++ u "כ"].

(** The body of [for row in table[1:]], lines 172-209. *)
Definition row_step (d : data) (row : list cell) : res data :=
  if bool_decide (row = []) then Ret d
  else
    let row_text := joined_cells row in
    if any_in skip_words row_text then Ret d
    else if negb (existsb cell_truthy row) then Ret d
    else
      ph ← for_each (store_cell (headers d)) (imap pair row) ∅;
      stage_col ← (if bool_decide (headers d = []) then Ret (u "stage")
                    else index_last (headers d));
      let ph := <[u "_stage" := default (VStr []) (ph !! stage_col)]> ph in
      Ret (append_phase ph d).

(** [[fix_hebrew(str(h)) if h else f'col_{i}' for i, h in enumerate(header)]] *)
Definition build_headers (header : list cell) : list pystr :=
  imap (λ i h, if cell_truthy h then fix_hebrew (py_str h) else col_ i) header.

(** The body of [for table in all_tables], lines 156-209. *)
Definition table_step (d : data) (t : table) : res data :=
  if bool_decide (t = []) || (length t <? 2)%nat then Ret d
  else
    header ← index t 0;
    if bool_decide (header = []) || (length header <? 4)%nat then Ret d
    else
      let header_text := joined_cells header in
      if negb (contains (u "שלב") header_text) && negb (contains (u "בלש") header_text)
      then Ret d
      else
        let d := set_headers (build_headers header) d in
        for_each row_step (drop 1 t) d.

(** [bool(c)] for a column variable: [None] or a header name. *)
Definition col_truthy (c : option pystr) : bool :=
  match c with Some (_ :: _) => true | _ => false end.

(** ['סכום' in h and 'חשבון' not in h and 'מצטבר' not in h] *)
Definition is_contract_header (h : pystr) : bool :=
  contains (u "סכום") h && negb (contains (u "חשבון") h)
  && negb (contains (u "מצטבר") h).

(** ['חשבון זה' in h or 'בחשבון' in h] *)
Definition is_billed_header (h : pystr) : bool :=
  contains (u "חשבון זה") h || contains (u "בחשבון") h.

(** The body of [for h in data['headers']], lines 217-220. *)
Definition col_step (cb : option pystr * option pystr) (h : pystr)
  : option pystr * option pystr :=
  let contract_col := if is_contract_header h then Some h else cb.1 in
  let billed_col := if is_billed_header h then Some h else cb.2 in
  (contract_col, billed_col).

(** Lines 214-224: the contract-amount and the billed column. *)
Definition select_cols (hdrs : list pystr) : res (option pystr * option pystr) :=
  let cb := foldl col_step (None, None) hdrs in
  billed_col ← (if negb (col_truthy cb.2) && negb (bool_decide (hdrs = []))
                 then h ← index hdrs 0; Ret (Some h)
                 else Ret cb.2);
  Ret (cb.1, billed_col).

(** [p[k]] *)
Definition getitem (p : phase) (k : pystr) : res pyval :=
  match p !! k with Some v => Ret v | None => Raise KeyError end.

(** [bool(p.get(k))]: a missing key gives [None], which is false. *)
Definition get_truthy (p : phase) (k : pystr) : bool :=
  match p !! k with Some v => val_truthy v | None => false end.

(** The body of [for p in data['phases']], lines 227-232. *)
Definition total_step (contract_col billed_col : option pystr)
    (d : data) (p : phase) : res data :=
  d ← match contract_col with
      | Some c =>
        if col_truthy contract_col && get_truthy p c
        then v ← getitem p c; Ret (set_contract_total v d)
        else Ret d
      | None => Ret d
      end;
  match billed_col with
  | Some b =>
    if col_truthy billed_col
    then
      let val := default (VInt 0) (p !! b) in
      if is_number val
      then t ← py_add (billed_total d) val; Ret (set_billed_total t d)
      else Ret d
    else Ret d
  | None => Ret d
  end.

(** What pdfplumber yields for one page. *)
Record page : Type := Page {
  extract_text : option pystr;
  extract_tables : list table;
}.

(** The initial [data] dictionary, lines 128-135. *)
Definition data0 : data := Data (VInt 0) (VInt 0) [] [].

(** [all_tables] after the page loop, lines 139-146. *)
Definition all_tables (pages : list page) : list table :=
  flat_map extract_tables pages.

(** [extract(pdf_file)] as a function of the pages of the opened document.
    The fields [company] and [vat_total] are computed from the page text
    alone and are left out. *)
Definition extract (pages : list page) : res data :=
  d ← for_each table_step (all_tables pages) data0;
  if bool_decide (phases d = []) then Ret d
  else
    cb ← select_cols (headers d);
    for_each (total_step cb.1 cb.2) (phases d) d.

(** *** The loops in closed form

    What the loops above compute, written without state; each is proved
    equal to the loop it describes before it is used. *)

(** The key a cell at column [i] is stored under. *)
Definition col_name (hdrs : list pystr) (i : nat) : pystr :=
  default (col_ i) (hdrs !! i).

(** [raw_val] of lines 192-195: the cell text with its whitespace
    normalised. *)
Definition raw_value (c : cell) : pystr :=
  py_join [SP] (py_split (replace1 CR [SP] (replace1 NL [SP]
    (if cell_truthy c then py_str c else [])))).

(** The number [parse_num] returns. *)
Definition num_value (raw : pystr) : F :=
  match parse_num (Some raw) with Ret x => x | Raise _ => f0 end.

(** The value stored for a cell, lines 196-203. *)
Definition cell_value (c : cell) : pyval :=
  let raw := raw_value c in
  if negb (feq0 (num_value raw)) || bool_decide (py_strip raw ∈ zero_literals)
  then VFloat (num_value raw)
  else VStr (fix_hebrew raw).

Definition put_cell (hdrs : list pystr) (ph : phase) (ic : nat * cell) : phase :=
  <[col_name hdrs ic.1 := cell_value ic.2]> ph.

(** The dictionary after the cell loop of one row. *)
Definition cells_phase (hdrs : list pystr) (row : list cell) : phase :=
  foldl (put_cell hdrs) ∅ (imap pair row).

(** The key [_stage] is read from, line 206. *)
Definition stage_col (hdrs : list pystr) : pystr :=
  default (u "stage") (last hdrs).

(** The phase appended for a row that is not skipped. *)
Definition row_phase (hdrs : list pystr) (row : list cell) : phase :=
  let ph := cells_phase hdrs row in
  <[u "_stage" := default (VStr []) (ph !! stage_col hdrs)]> ph.

(** A data row that produces a phase: none of the three [continue]s of
    lines 172-185 fires. *)
Definition row_kept (row : list cell) : bool :=
  negb (bool_decide (row = []))
  && negb (any_in skip_words (joined_cells row))
  && existsb cell_truthy row.

(** The header row of a table, [table[0]]. *)
Definition header_row (t : table) : list cell := default [] (head t).

(** The milestone-table predicate: none of the three [continue]s of
    lines 156-166 fires. *)
Definition qualifies (t : table) : bool :=
  (2 <=? length t)%nat
  && (4 <=? length (header_row t))%nat
  && (contains (u "שלב") (joined_cells (header_row t))
      || contains (u "בלש") (joined_cells (header_row t))).

(** The phases one qualifying table contributes. *)
Definition table_phases (t : table) : list phase :=
  row_phase (build_headers (header_row t)) <$> List.filter row_kept (drop 1 t).

(** The last element of [l] that satisfies [P]. *)
Definition last_such {A} (P : A → bool) (l : list A) : option A :=
  last (List.filter P l).

(** *** Statements of the specification that the code does not meet,
    as the specification words them *)

(** Only the first qualifying table contributes to the result. *)
Definition first_table_only (pages : list page) : Prop :=
  ∀ d t later,
    extract pages = Ret d →
    List.filter qualifies (all_tables pages) = t :: later →
    headers d = build_headers (header_row t) ∧ phases d = table_phases t.

(** The first matching header is the contract-amount column and the first
    matching header, or else the first header, is the billed column. *)
Definition selects_first_match (hdrs : list pystr) : Prop :=
  select_cols hdrs =
  Ret (List.find is_contract_header hdrs,
       match List.find is_billed_header hdrs with
       | Some h => Some h
       | None => head hdrs
       end).

(** Every phase has exactly the keys [headers] plus [_stage]. *)
Definition keys_are_headers (pages : list page) : Prop :=
  ∀ d ph,
    extract pages = Ret d → ph ∈ phases d →
    dom ph = list_to_set (headers d) ∪ {[ u "_stage" ]}.

(** A kept row shorter than the headers gets the empty [_stage]. *)
Definition short_row_stage_empty (hdrs : list pystr) (row : list cell) : Prop :=
  row_kept row = true → (length row < length hdrs)%nat →
  ∀ d d', headers d = hdrs → row_step d row = Ret d' →
  ∃ ph, last (phases d') = Some ph ∧ ph !! u "_stage" = Some (VStr []).

(** The summary markers in both directions of writing: the five markers
    the code lists and the mirror image of the grand-total mark. *)
Definition summary_markers : list pystr :=
  skip_words ++ [reverse (u "סה" ++ [34] ++ u "כ")].

End Extractor.

Arguments pyval F : clear implicits.
Arguments data F : clear implicits.

(** ** Documents used in the examples *)

Definition txt (s : string) : cell := Some (u s).

Definition header_a : list cell :=
  [txt "שלב"; txt "תיאור"; txt "אחוז"; txt "סכום"].
Definition header_b : list cell :=
  [txt "שלב"; txt "הערה"; txt "כמות"; txt "מחיר"].

Definition table_a : table :=
  [header_a; [txt "1"; txt "תכנון"; txt "10%"; txt "1,000"]].
Definition table_b : table :=
  [header_b; [txt "2"; txt "ביצוע"; txt "3"; txt "2,000"]].

(** Two pages, each with a qualifying table. *)
Definition two_tables : list page :=
  [Page (txt "") [table_a]; Page (txt "") [table_b]].

(** The first of these pages alone. *)
Definition single_table : list page := [Page (txt "") [table_a]].

(** One table with a data row of five cells under a header of four. *)
Definition long_row : list page :=
  [Page (txt "") [[header_a; [txt "1"; txt "תכנון"; txt "10%"; txt "1,000"; txt "x"]]]].

(** One table whose only data row carries the mirrored grand-total mark. *)
Definition mirrored_total_row : list cell :=
  [Some (reverse (u "סה" ++ [34] ++ u "כ")); None; None; txt "5,000"].
Definition mirrored_total : list page :=
  [Page (txt "") [[header_a; mirrored_total_row]]].

(** No table has a stage marker in its header. *)
Definition no_milestones : list page :=
  [Page (txt "") [[[txt "a"; txt "b"; txt "c"; txt "d"]; [txt "1"; txt "2"; txt "3"; txt "4"]]];
   Page None []].

(** A header whose last name repeats the first one, and a row of three. *)
Definition repeated_header : list pystr := [u "שלב"; u "a"; u "b"; u "שלב"].
Definition short_row : list cell := [txt "x"; txt "1"; txt "2"].

(** Four distinct header names, and phases with an amount under the last. *)
Definition plain_headers : list pystr :=
  [u "שלב"; u "תיאור"; u "אחוז"; u "סכום"].

Definition amount_phases : list (gmap pystr (pyval float)) :=
  [ {[ u "סכום" := VFloat 1000%float ]};
    {[ u "סכום" := VFloat 2000%float ]};
    {[ u "סכום" := VStr [] ]} ].

(** Two headers that both qualify as the contract-amount column. *)
Definition two_amounts : list pystr := [u "סכום"; u "סכום נוסף"].

(** ** The rest of [app.py]

    The builtins the remaining functions use: [str.upper] and the class of
    decimal digits that [\d] matches in a [str] pattern
    ([str.isdecimal] on one code point). *)

Class PyUnicode : Type := {
  py_upper : pystr → pystr;
  py_isdecimal : N → bool;
}.

(** An instance for running examples: [upper] maps [a-z] to [A-Z] and keeps
    every other code point (exact on text whose other characters have no
    case, such as Hebrew), and the decimal digits are [0-9] only.  No
    general theorem depends on this instance. *)
Module Ascii7.

Definition upper_cp (c : N) : N :=
  if (97 <=? c) && (c <=? 122) then c - 32 else c.

#[global] Instance ascii7 : PyUnicode := {|
  py_upper := map upper_cp;
  py_isdecimal := λ c, (48 <=? c) && (c <=? 57);
|}.

End Ascii7.

(** *** Stage names and output columns, lines 12-43 *)

Definition GRAND_TOTAL : pystr := u "סה" ++ [34] ++ u "כ".

(** The dictionary [STAGE_TO_COLUMN] in insertion order, which is the order
    [.items()] iterates in. *)
Definition STAGE_TO_COLUMN : list (pystr * pystr) :=
  [ (u "חתימה על החוזה", u "עד זכיה");
    (u "מצגת דיירים", u "עד זכיה");
    (u "תוכניות דירות תמורה", u "בחירת יזם");
    (u "התכנון הראשוני", u "בחירת יזם");
    (u "הגשת ההיתר", u "51% חתימות");
    (u "החלטת וועדה", u "67% חתימות");
    (u "חשבון אגרות", u "לאחר שנה מ67%");
    (u "למכרז", u "לאחר שנתיים");
    (u "לביצוע", u "היתר");
    (u "טופס 4", GRAND_TOTAL) ].

Definition COMPANY_COL : pystr := u "שם/חברה נבחרת".

Definition COLS : list pystr :=
  [ u "שלב תכנון"; COMPANY_COL; u "דירוג שירות 1-10"; u "דירוג מחיר טוב 1-10";
    u "היקף חוזה"; u "עד זכיה"; u "בחירת יזם"; u "51% חתימות"; u "67% חתימות";
    u "לאחר שנה מ67%"; u "לאחר שנתיים"; u "היתר"; GRAND_TOTAL ].

Definition MILESTONE_COLS : list pystr :=
  [ u "עד זכיה"; u "בחירת יזם"; u "51% חתימות"; u "67% חתימות";
    u "לאחר שנה מ67%"; u "לאחר שנתיים"; u "היתר"; GRAND_TOTAL ].

(** One of the two loops of [get_milestone_column]: the column of the first
    entry whose pattern, passed through [f], occurs in the stage name. *)
Definition stage_lookup (f : pystr → pystr) (stage_name : pystr) : option pystr :=
  snd <$> List.find (λ pc, contains (f pc.1) stage_name) STAGE_TO_COLUMN.

(** [get_milestone_column(stage_name)], lines 108-123. *)
Definition get_milestone_column (stage_name : option pystr) : option pystr :=
  match stage_name with
  | None => None
  | Some [] => None
  | Some s =>
    match stage_lookup id s with
    | Some col => Some col
    | None => stage_lookup reverse s
    end
  end.

(** *** Company and VAT total from the page text, lines 78-105 *)

Definition kot_patterns : list pystr :=
  [u "קיי.או.טי"; u "קי.או.טי"; u "KOT"; u "יט.וא.ייק"; u "יט.וא.יק"].

Definition KOT_NAME : pystr := u "קיי.או.טי אדריכלים".
Definition YARON_NAME : pystr := u "ירון אליאב".

(** The part of a regular expression that the three patterns of
    [extract_vat_total] use: single characters of a class, repetitions of a
    class (greedy or lazy, from zero or from one), an optional character,
    and the parentheses of group 1. *)
Inductive item : Type :=
  | One (p : N → bool)
  | Many (greedy at_least_one : bool) (p : N → bool)
  | Maybe (p : N → bool)
  | Open
  | Close.

(** A character read while group 1 is open joins the captured text. *)
Definition capture (opened : bool) (g : pystr) (c : N) : pystr :=
  if opened then g ++ [c] else g.

(** A repetition of the class [p] followed by the rest of the pattern [k],
    in the order the [re] module tries the alternatives: a greedy
    repetition first takes another character and falls back to stopping, a
    lazy one first stops.  [enough] tells whether stopping is allowed. *)
Fixpoint many (k : pystr → pystr → option pystr) (greedy : bool) (p : N → bool)
    (opened : bool) (s g : pystr) (enough : bool) {struct s} : option pystr :=
  let stop := if enough then k s g else None in
  match s with
  | c :: r =>
    if p c
    then
      let more := many k greedy p opened r (capture opened g c) true in
      if greedy
      then match more with Some x => Some x | None => stop end
      else match stop with Some x => Some x | None => more end
    else stop
  | [] => stop
  end.

(** Backtracking match of a pattern at the start of [s]; the result is the
    text of group 1. *)
Fixpoint re_match (its : list item) (s : pystr) (opened : bool) (g : pystr)
  {struct its} : option pystr :=
  match its with
  | [] => Some g
  | One p :: rest =>
    match s with
    | c :: r => if p c then re_match rest r opened (capture opened g c) else None
    | [] => None
    end
  | Maybe p :: rest =>
    match s with
    | c :: r =>
      if p c
      then match re_match rest r opened (capture opened g c) with
           | Some x => Some x
           | None => re_match rest s opened g
           end
      else re_match rest s opened g
    | [] => re_match rest s opened g
    end
  | Many greedy at_least_one p :: rest =>
    many (λ s g, re_match rest s opened g) greedy p opened s g (negb at_least_one)
  | Open :: rest => re_match rest s true []
  | Close :: rest => re_match rest s false g
  end.

(** [re.search(pattern, text)] followed by [.group(1)]: the leftmost start
    at which the pattern matches. *)
Fixpoint re_search (its : list item) (s : pystr) : option pystr :=
  match re_match its s false [] with
  | Some g => Some g
  | None => match s with [] => None | _ :: r => re_search its r end
  end.

(** A literal word in a pattern. *)
Definition lit (w : pystr) : list item := (λ c, One (N.eqb c)) <$> w.

(** [.]: any character but the newline. *)
Definition dot (c : N) : bool := negb (c =? NL).

Definition PAYABLE : pystr := u "לתשלום".

Section Document.

Context {F : Type} {PF : PyFloat F} {PU : PyUnicode}.

(** [extract_company(text)], lines 78-90. *)
Definition extract_company (text : pystr) : pystr :=
  if existsb (λ p, contains p text || contains p (py_upper text)) kot_patterns
  then KOT_NAME
  else if contains (u "ירון אליאב") text || contains (u "באילא ןורי") text
  then YARON_NAME
  else u "Unknown".

(** [[\d,]] *)
Definition digit_or_comma (c : N) : bool := py_isdecimal c || (c =? COMMA).

(** Group 1 of each pattern: [( [\d,]+ \.? \d* )] *)
Definition number_group : list item :=
  [Open; Many true true digit_or_comma; Maybe (N.eqb 46);
   Many true false py_isdecimal; Close].

(** The three patterns of [extract_vat_total], in order. *)
Definition vat_patterns : list (list item) :=
  [ lit PAYABLE ++ [Many true false py_isspace] ++ number_group
      ++ [Many true false py_isspace] ++ lit [SHEKEL];
    lit [SHEKEL] ++ [Many true false py_isspace] ++ number_group
      ++ [Many true false py_isspace] ++ lit PAYABLE;
    lit (u "סה") ++ [One dot] ++ lit (u "כ") ++ [Many false false dot]
      ++ lit PAYABLE ++ [Many false false dot] ++ number_group ].

(** The first pattern, in order, that is found in the text. *)
Fixpoint first_found (pats : list (list item)) (text : pystr) : option pystr :=
  match pats with
  | [] => None
  | p :: rest =>
    match re_search p text with
    | Some g => Some g
    | None => first_found rest text
    end
  end.

(** [extract_vat_total(text)], lines 93-105. *)
Definition extract_vat_total (text : pystr) : res F :=
  match first_found vat_patterns text with
  | Some g => parse_num (Some g)
  | None => Ret f0
  end.

(** [page.extract_text() or ''] *)
Definition page_text (p : page) : pystr :=
  match extract_text p with Some s => s | None => [] end.

(** [full_text] after the page loop, lines 138-143. *)
Definition full_text (pages : list page) : pystr :=
  flat_map (λ p, page_text p ++ [NL]) pages.

(** The whole [data] dictionary that [extract] returns: the text fields
    beside the table fields of [extract]. *)
Record document : Type := Document {
  company : pystr;
  vat_total : F;
  tables : data F;
}.

Definition extract_document (pages : list page) : res document :=
  let company := extract_company (full_text pages) in
  vat ← extract_vat_total (full_text pages);
  d ← extract pages;
  Ret (Document company vat d).

(** One output row of [to_tracking_rows], lines 243-250. *)
Definition tracking_row (company : pystr) (hdrs : list pystr)
    (ph : gmap pystr (pyval F)) : gmap pystr (pyval F) :=
  let row := foldl (λ row h, <[h := default (VStr []) (ph !! h)]> row) ∅ hdrs in
  <[COMPANY_COL := VStr company]> row.

(** [to_tracking_rows(data)], lines 237-254. *)
Definition to_tracking_rows (doc : document)
  : list (gmap pystr (pyval F)) * list pystr :=
  (tracking_row (company doc) (headers (tables doc)) <$> phases (tables doc),
   headers (tables doc)).

(** The values [billed_total] adds up: the numbers the phases hold under
    the billed column, a missing key counting as the integer 0. *)
Definition billed_values (b : pystr) (ps : list (gmap pystr (pyval F)))
  : list (pyval F) :=
  List.filter is_number ((λ p, default (VInt 0) (p !! b)) <$> ps).

End Document.

Arguments document F : clear implicits.

(** *** The upload script, lines 266 and 296 *)

(** [headers + [COMPANY_COL] if headers else [COMPANY_COL]] *)
Definition all_cols (hdrs : list pystr) : list pystr :=
  if bool_decide (hdrs = []) then [COMPANY_COL] else hdrs ++ [COMPANY_COL].

(** [s.replace(old, new)] for a non-empty [old]: the occurrences are
    replaced from the left and do not overlap; [skip] counts the characters
    of an occurrence still to be passed over. *)
Fixpoint replace_go (old new : pystr) (skip : nat) (s : pystr) : pystr :=
  match s with
  | [] => []
  | c :: r =>
    match skip with
    | S k => replace_go old new k r
    | O =>
      if starts_with old s
      then new ++ replace_go old new (length old - 1) r
      else c :: replace_go old new 0 r
    end
  end.

Definition py_replace (old new s : pystr) : pystr := replace_go old new 0 s.

(** [f"{name.replace('.pdf', '')}_tracking.csv"] *)
Definition csv_name (name : pystr) : pystr :=
  py_replace (u ".pdf") [] name ++ u "_tracking.csv".

(** A word: non-empty and free of whitespace. *)
Definition clean_word (x : pystr) : Prop :=
  x ≠ [] ∧ Forall (λ c, py_isspace c = false) x.

(** Text with no whitespace but single spaces between words. *)
Definition tidy (t : pystr) : Prop :=
  Forall (λ c, py_isspace c = true → c = SP) t
  ∧ contains [SP; SP] t = false
  ∧ head t ≠ Some SP ∧ last t ≠ Some SP.

(** Documents and texts used in the examples. *)
Definition invoice_text : pystr :=
  u "KOT Architects" ++ [NL] ++ u "סה" ++ [34] ++ u "כ (כולל מעמ) לתשלום 1,180.00 ₪".

Definition table_doc : list page := [Page (Some invoice_text) [table_a]].

(** One qualifying table whose only data row is a summary row. *)
Definition summary_only : list page :=
  [Page None [[header_a; [txt "סכום כולל"; None; None; txt "5,000"]]]].

Definition sample_doc : document float :=
  Document (u "KOT") 0%float (Data (VInt 0) (VInt 0) amount_phases plain_headers).

(** A header row with two empty cells, and a data row of four cells. *)
Definition gappy_header : list cell := [None; txt "שלב"; Some []; txt "x"].
Definition full_row : list cell := [txt "1"; txt "תכנון"; txt "10%"; txt "1,000"].

(** * Properties *)

(** ** Strings *)

Lemma isspace_SP : py_isspace SP = true.
Proof. reflexivity. Qed.

Lemma starts_with_spec (p t : pystr) :
  starts_with p t = true ↔ ∃ b, t = p ++ b.
Proof.
  revert t. induction p as [|x p IH]; intros t; simpl.
  - split; [by exists t | done].
  - destruct t as [|y t].
    + split; [done | by intros [b Hb]].
    + rewrite andb_true_iff, N.eqb_eq, IH. split.
      * intros [-> [b ->]]. by exists b.
      * intros [b [= -> ->]]. eauto.
Qed.

(** [contains p t] is Python's [p in t]: [p] is a contiguous part of [t]. *)
Lemma contains_spec (p t : pystr) :
  contains p t = true ↔ ∃ a b, t = a ++ p ++ b.
Proof.
  induction t as [|c t IH]; simpl.
  - rewrite orb_false_r, starts_with_spec. split.
    + intros [b Hb]. by exists [], b.
    + intros (a & b & H). symmetry in H.
      apply app_eq_nil in H as [-> H]. apply app_eq_nil in H as [-> ->].
      by exists [].
  - rewrite orb_true_iff, starts_with_spec, IH. split.
    + intros [[b Hb]|(a & b & ->)]; [by exists [], b | by exists (c :: a), b].
    + intros (a & b & H). destruct a as [|x a].
      * left. by exists b.
      * right. injection H as -> ->. by exists a, b.
Qed.

Lemma lstrip_app (a b : pystr) :
  py_lstrip (a ++ b) =
  match py_lstrip a with [] => py_lstrip b | _ => py_lstrip a ++ b end.
Proof.
  induction a as [|c a IH]; simpl.
  - by destruct (py_lstrip b).
  - destruct (py_isspace c); [exact IH | done].
Qed.

Lemma rstrip_nil : py_rstrip [] = [].
Proof. reflexivity. Qed.

Lemma rstrip_cons (c : N) (s : pystr) :
  py_rstrip (c :: s) =
  if py_isspace c && bool_decide (py_rstrip s = []) then [] else c :: py_rstrip s.
Proof.
  unfold py_rstrip. rewrite reverse_cons, lstrip_app.
  destruct (py_lstrip (reverse s)) as [|d t] eqn:E; simpl.
  - by destruct (py_isspace c).
  - rewrite app_comm_cons, reverse_app. simpl.
    rewrite bool_decide_eq_false_2, andb_false_r; [done|].
    intros H. apply (f_equal length) in H.
    rewrite length_reverse in H. simpl in H. lia.
Qed.

Lemma lstrip_collapse_true (s : pystr) :
  py_lstrip (collapse_ws true s) = collapse_ws true s.
Proof.
  induction s as [|c s IH]; simpl; [done|].
  destruct (py_isspace c) eqn:E; simpl; [done | by rewrite E].
Qed.

Lemma lstrip_collapse_false (s : pystr) :
  py_lstrip (collapse_ws false s) = collapse_ws true s.
Proof.
  destruct s as [|c s]; simpl; [done|].
  destruct (py_isspace c) eqn:E; simpl.
  - apply lstrip_collapse_true.
  - by rewrite E.
Qed.

Lemma newline_to_space_isspace (c : N) :
  py_isspace (newline_to_space c) = py_isspace c.
Proof.
  unfold newline_to_space.
  destruct (c =? NL) eqn:E1; [apply N.eqb_eq in E1; by subst c|].
  destruct (c =? CR) eqn:E2; [apply N.eqb_eq in E2; by subst c|done].
Qed.

Lemma newline_to_space_other (c : N) :
  py_isspace c = false → newline_to_space c = c.
Proof.
  unfold newline_to_space. intros H.
  destruct (c =? NL) eqn:E1; [apply N.eqb_eq in E1; by subst c|].
  destruct (c =? CR) eqn:E2; [apply N.eqb_eq in E2; by subst c|done].
Qed.

Lemma collapse_newline_to_space (b : bool) (s : pystr) :
  collapse_ws b (map newline_to_space s) = collapse_ws b s.
Proof.
  revert b. induction s as [|c s IH]; intros b; simpl; [done|].
  rewrite newline_to_space_isspace.
  destruct (py_isspace c) eqn:E.
  - by rewrite IH.
  - by rewrite IH, newline_to_space_other.
Qed.

Lemma replace1_single (c d : N) (s : pystr) :
  replace1 c [d] s = map (λ x, if x =? c then d else x) s.
Proof.
  unfold replace1. induction s as [|x s IH]; simpl; [done|].
  rewrite IH. by destruct (x =? c).
Qed.

Lemma split_go_map (f : N → N) (w s : pystr) :
  (∀ c, py_isspace c = true → py_isspace (f c) = true) →
  (∀ c, py_isspace c = false → f c = c) →
  split_go w (map f s) = split_go w s.
Proof.
  intros Hs Hn. revert w. induction s as [|c s IH]; intros w; simpl; [done|].
  destruct (py_isspace c) eqn:E.
  - rewrite (Hs _ E), !IH. done.
  - rewrite (Hn _ E), E. apply IH.
Qed.

Lemma split_go_replace_space (c : N) (w s : pystr) :
  py_isspace c = true → split_go w (replace1 c [SP] s) = split_go w s.
Proof.
  intros Hc. rewrite replace1_single. apply split_go_map.
  - intros x Hx. by destruct (x =? c).
  - intros x Hx. destruct (x =? c) eqn:E; [|done].
    apply N.eqb_eq in E. congruence.
Qed.

Lemma split_go_lstrip (s : pystr) : split_go [] (py_lstrip s) = split_go [] s.
Proof.
  induction s as [|c s IH]; simpl; [done|].
  destruct (py_isspace c) eqn:E; [exact IH|]. simpl. by rewrite E.
Qed.

(** A string that right-strips to nothing holds only whitespace, so it
    ends whatever word is being read and starts no other. *)
Lemma split_go_blank (w s : pystr) :
  py_rstrip s = [] → split_go w s = split_go w [].
Proof.
  revert w. induction s as [|c s IH]; intros w; [done|].
  rewrite rstrip_cons.
  destruct (py_isspace c) eqn:E; simpl; [|done].
  case_bool_decide as Hr; simpl; [|done].
  intros _. rewrite E, (IH [] Hr). by destruct w.
Qed.

Lemma split_go_rstrip (w s : pystr) : split_go w (py_rstrip s) = split_go w s.
Proof.
  revert w. induction s as [|c s IH]; intros w; [done|].
  rewrite rstrip_cons.
  destruct (py_isspace c) eqn:E; simpl.
  - case_bool_decide as Hr; simpl.
    + rewrite E, (split_go_blank [] s Hr). by destruct w.
    + rewrite E, !IH. done.
  - rewrite E. apply IH.
Qed.

Lemma split_strip (s : pystr) : py_split (py_strip s) = py_split s.
Proof.
  unfold py_split, py_strip. by rewrite split_go_rstrip, split_go_lstrip.
Qed.

Lemma split_go_nonempty (w s x : pystr) : x ∈ split_go w s → x ≠ [].
Proof.
  revert w. induction s as [|c s IH]; intros w; simpl.
  - destruct w; [by intros ?%elem_of_nil | by intros ->%list_elem_of_singleton].
  - destruct (py_isspace c); [|apply IH].
    destruct w; [apply IH|].
    intros [->|H]%elem_of_cons; [done | by eapply IH].
Qed.

Lemma join_cons_nonempty (sep x : pystr) (l : list pystr) :
  x ≠ [] → py_join sep (x :: l) ≠ [].
Proof. destruct x; [done|]. by destruct l. Qed.

(** Joining the words of [s] with single spaces is collapsing its
    whitespace and trimming; [w] is the word being read. *)
Lemma join_split_go (w s : pystr) :
  (w = [] → py_join [SP] (split_go w s) = py_rstrip (collapse_ws true s)) ∧
  (w ≠ [] → py_join [SP] (split_go w s) = w ++ py_rstrip (collapse_ws false s)).
Proof.
  revert w. induction s as [|c s IH]; intros w.
  - split; [by intros -> | intros Hw].
    destruct w; [done|]. simpl. by rewrite rstrip_nil, app_nil_r.
  - simpl. destruct (py_isspace c) eqn:E.
    + split; [intros ->; by apply IH | intros Hw].
      destruct w as [|d w]; [done|].
      rewrite rstrip_cons, isspace_SP. simpl.
      destruct (IH []) as [IH0 _]. specialize (IH0 eq_refl).
      destruct (split_go [] s) as [|x l] eqn:Hsp.
      * simpl in IH0. rewrite <- IH0. simpl. by rewrite app_nil_r.
      * rewrite <- IH0. rewrite bool_decide_eq_false_2; [done|].
        apply join_cons_nonempty, (split_go_nonempty [] s).
        rewrite Hsp. apply elem_of_cons. by left.
    + destruct (IH (w ++ [c])) as [_ IH1].
      rewrite IH1 by (by destruct w).
      rewrite rstrip_cons, E. simpl.
      split; [by intros -> | intros _]. by rewrite <- app_assoc.
Qed.

Lemma join_split_spec (s : pystr) : py_join [SP] (py_split s) = spec_normalize s.
Proof.
  unfold spec_normalize, py_strip, py_split.
  rewrite collapse_newline_to_space, lstrip_collapse_false.
  by apply join_split_go.
Qed.

Lemma split_go_word (w x r : pystr) :
  Forall (λ c, py_isspace c = false) x →
  split_go w (x ++ r) = split_go (w ++ x) r.
Proof.
  intros Hx. revert w. induction Hx as [|c x Hc _ IH]; intros w; simpl.
  - by rewrite app_nil_r.
  - by rewrite Hc, IH, <- app_assoc.
Qed.

Lemma split_go_clean (w s x : pystr) :
  Forall (λ c, py_isspace c = false) w →
  x ∈ split_go w s → Forall (λ c, py_isspace c = false) x.
Proof.
  revert w. induction s as [|c s IH]; intros w Hw; simpl.
  - destruct w; [by intros ?%elem_of_nil | by intros ->%list_elem_of_singleton].
  - destruct (py_isspace c) eqn:E.
    + destruct w; [by apply IH|].
      intros [->|H]%elem_of_cons; [done | by apply (IH [])].
    + apply IH, Forall_app. by split; [|apply Forall_singleton].
Qed.

(** Splitting what [join] made of whitespace-free words gives the words. *)
Lemma split_join (ws : list pystr) :
  Forall (λ x, x ≠ [] ∧ Forall (λ c, py_isspace c = false) x) ws →
  py_split (py_join [SP] ws) = ws.
Proof.
  unfold py_split. induction 1 as [|x ws [Hne Hx] Hws IH]; [done|].
  destruct ws as [|y ws].
  - pose proof (split_go_word [] x [] Hx) as H.
    rewrite app_nil_r in H. simpl in *. rewrite H. by destruct x.
  - change (py_join [SP] (x :: y :: ws)) with (x ++ SP :: py_join [SP] (y :: ws)).
    remember (py_join [SP] (y :: ws)) as rest.
    rewrite split_go_word by done. simpl. rewrite IH. by destruct x.
Qed.

(** Normalising keeps the words and is idempotent. *)
Lemma split_normalize (s : pystr) : py_split (spec_normalize s) = py_split s.
Proof.
  rewrite <- join_split_spec. apply split_join, Forall_forall.
  intros x Hx. split; [by eapply split_go_nonempty|].
  by eapply split_go_clean.
Qed.

Lemma normalize_idempotent (s : pystr) :
  spec_normalize (spec_normalize s) = spec_normalize s.
Proof. by rewrite <- (join_split_spec (spec_normalize s)), split_normalize, join_split_spec. Qed.

(** C6: for every input string the normaliser collapses newlines, carriage
    returns and runs of whitespace to single spaces and trims the ends, then
    returns that text with its characters in reverse order when it holds one
    of the reversed fragments, and unchanged otherwise. *)
Theorem fix_hebrew_spec (s : pystr) :
  fix_hebrew s =
  if any_in reversed_patterns (spec_normalize s)
  then reverse (spec_normalize s) else spec_normalize s.
Proof.
  unfold fix_hebrew. case_bool_decide as Hs; [by subst s|].
  cbv zeta.
  assert (py_split (replace1 CR [SP] (replace1 NL [SP] (py_strip s))) = py_split s)
    as ->.
  { unfold py_split at 1.
    rewrite !split_go_replace_space by done. apply split_strip. }
  by rewrite join_split_spec.
Qed.

(** ** Loops and exceptions *)

Lemma for_each_ret {A S} (step : S → A → res S) (f : S → A → S) (l : list A) (st : S) :
  (∀ st x, step st x = Ret (f st x)) →
  for_each step l st = Ret (foldl f st l).
Proof.
  intros Hstep. revert st. induction l as [|x l IH]; intros st; simpl; [done|].
  rewrite Hstep. simpl. apply IH.
Qed.

Lemma last_filter_cons {A} (P : A → bool) (x : A) (l : list A) :
  last_such P (x :: l) =
  match last_such P l with
  | Some y => Some y
  | None => if P x then Some x else None
  end.
Proof.
  unfold last_such. simpl. destruct (P x); [|by destruct (last _)].
  by rewrite last_cons.
Qed.

#[local] Arguments parse_num : simpl never.
#[local] Arguments fix_hebrew : simpl never.
#[local] Arguments py_strip : simpl never.
#[local] Arguments py_split : simpl never.
#[local] Arguments contains : simpl never.
#[local] Arguments u : simpl never.
#[local] Arguments any_in : simpl never.
#[local] Arguments joined_cells : simpl never.
#[local] Arguments build_headers : simpl never.

Section ExtractorProperties.

Context {F : Type} {PF : PyFloat F}.

Implicit Types (d : data F) (row : list cell) (t : table) (hdrs : list pystr).
Implicit Types (ph p : gmap pystr (pyval F)).

(** *** The numeric parser *)

Lemma parse_num_closed (s : option pystr) :
  parse_num s =
  Ret (match s with
       | None => f0
       | Some t =>
         if bool_decide (cleaned t = []) then f0
         else default f0 (float_of_str (cleaned t))
       end).
Proof.
  destruct s as [t|]; [|done]. unfold parse_num, py_float.
  case_bool_decide; [done|]. by destruct (float_of_str (cleaned t)).
Qed.

Lemma parse_num_num_value (raw : pystr) : parse_num (Some raw) = Ret (num_value raw).
Proof. unfold num_value. by rewrite parse_num_closed. Qed.

(** *** The row and table loops *)

Lemma store_cell_ret hdrs ph (ic : nat * cell) :
  store_cell hdrs ph ic = Ret (put_cell hdrs ph ic).
Proof.
  destruct ic as [i c]. unfold store_cell, put_cell, col_name, index. simpl.
  assert ((if (i <? length hdrs)%nat
           then match hdrs !! i with Some x => Ret x | None => Raise IndexError end
           else Ret (col_ i)) = Ret (default (col_ i) (hdrs !! i))) as ->.
  { destruct (i <? length hdrs)%nat eqn:E.
    - apply Nat.ltb_lt, lookup_lt_is_Some in E. by destruct E as [h ->].
    - apply Nat.ltb_ge, lookup_ge_None in E. by rewrite E. }
  simpl. fold (raw_value c). rewrite parse_num_num_value. simpl.
  unfold cell_value. by destruct (_ || _).
Qed.

Lemma cells_loop_ret hdrs row :
  for_each (store_cell hdrs) (imap pair row) ∅ = Ret (cells_phase hdrs row).
Proof. apply for_each_ret, store_cell_ret. Qed.

Lemma row_step_ret d row :
  row_step d row =
  Ret (if row_kept row then append_phase (row_phase (headers d) row) d else d).
Proof.
  unfold row_step, row_kept.
  case_bool_decide as Hrow; simpl; [done|].
  destruct (any_in skip_words (joined_cells row)); simpl; [done|].
  destruct (existsb cell_truthy row); simpl; [|done].
  rewrite cells_loop_ret. simpl.
  unfold row_phase, stage_col, index_last.
  case_bool_decide as Hh.
  - rewrite Hh. done.
  - destruct (last (headers d)) eqn:E; [done|].
    by apply last_None in E.
Qed.

Lemma rows_loop_ret d (rows : list (list cell)) :
  for_each row_step rows d =
  Ret (Data (contract_total d) (billed_total d)
         (phases d ++ (row_phase (headers d) <$> List.filter row_kept rows))
         (headers d)).
Proof.
  revert d. induction rows as [|row rows IH]; intros d; simpl.
  - rewrite app_nil_r. by destruct d.
  - rewrite row_step_ret. simpl. destruct (row_kept row); rewrite IH; [|done].
    simpl. by rewrite <- app_assoc.
Qed.

Lemma header_guard (header : list cell) :
  bool_decide (header = []) || (length header <? 4)%nat
  = negb (4 <=? length header)%nat.
Proof. by destruct header as [|? [|? [|? [|? ?]]]]. Qed.

Lemma table_step_ret d t :
  table_step d t =
  Ret (if qualifies t
       then Data (contract_total d) (billed_total d)
              (phases d ++ table_phases t) (build_headers (header_row t))
       else d).
Proof.
  unfold table_step, qualifies, table_phases.
  destruct t as [|header rows]; [done|].
  destruct rows as [|r1 rest]; [done|].
  remember (r1 :: rest) as rows eqn:Hrows.
  assert ((length (header :: rows) <? 2)%nat = false) as -> by by subst rows.
  assert ((2 <=? length (header :: rows))%nat = true) as -> by by subst rows.
  rewrite bool_decide_eq_false_2 by done.
  change (header_row (header :: rows)) with header.
  change (drop 1 (header :: rows)) with rows.
  change (index (header :: rows) 0) with (Ret (A:=list cell) header).
  cbn [mbind res_bind orb andb].
  rewrite header_guard.
  destruct (4 <=? length header)%nat; cbn [negb andb]; [|done].
  destruct (contains (u "שלב") (joined_cells header)),
           (contains (u "בלש") (joined_cells header)); simpl;
    try done; by rewrite rows_loop_ret.
Qed.

Lemma tables_loop_ret d (ts : list table) :
  for_each table_step ts d =
  Ret (Data (contract_total d) (billed_total d)
         (phases d ++ flat_map table_phases (List.filter qualifies ts))
         (match last (List.filter qualifies ts) with
          | Some t => build_headers (header_row t)
          | None => headers d
          end)).
Proof.
  revert d. induction ts as [|t ts IH]; intros d; simpl.
  - rewrite app_nil_r. by destruct d.
  - rewrite table_step_ret. simpl. destruct (qualifies t); rewrite IH; [|done].
    simpl. rewrite <- app_assoc, last_cons. by destruct (last _).
Qed.

(** *** The aggregator *)

Lemma last_such_true {A} (P : A → bool) (l : list A) (x : A) :
  last_such P l = Some x → P x = true.
Proof.
  unfold last_such. intros H%last_Some_elem_of%list_elem_of_In.
  by apply List.filter_In in H as [_ H].
Qed.

Lemma col_loop (a b : option pystr) hdrs :
  foldl col_step (a, b) hdrs =
  (match last_such is_contract_header hdrs with Some h => Some h | None => a end,
   match last_such is_billed_header hdrs with Some h => Some h | None => b end).
Proof.
  revert a b. induction hdrs as [|h hdrs IH]; intros a b; [done|].
  simpl. unfold col_step at 2. simpl. rewrite IH, !last_filter_cons.
  by destruct (last_such is_contract_header hdrs),
    (last_such is_billed_header hdrs),
    (is_contract_header h), (is_billed_header h).
Qed.

Lemma select_cols_ret hdrs :
  select_cols hdrs =
  Ret (last_such is_contract_header hdrs,
       match last_such is_billed_header hdrs with
       | Some h => Some h
       | None => head hdrs
       end).
Proof.
  unfold select_cols. rewrite col_loop. simpl.
  assert (match last_such is_contract_header hdrs with
          | Some h => Some h | None => None end
          = last_such is_contract_header hdrs) as -> by by destruct (last_such _ _).
  destruct (last_such is_billed_header hdrs) as [h|] eqn:E.
  - apply last_such_true in E. destruct h; [by vm_compute in E | by simpl].
  - simpl. case_bool_decide as Hh; [by subst hdrs|]. simpl.
    by destruct hdrs.
Qed.

Lemma py_add_number (a b : pyval F) :
  is_number a = true → is_number b = true →
  ∃ c, py_add a b = Ret c ∧ is_number c = true.
Proof. destruct a, b; try done; intros _ _; by eexists. Qed.

Lemma total_step_ret (cc bc : option pystr) d p :
  is_number (billed_total d) = true →
  ∃ d', total_step cc bc d p = Ret d'
    ∧ phases d' = phases d ∧ headers d' = headers d
    ∧ is_number (billed_total d') = true
    ∧ contract_total d' =
      match cc with
      | Some c =>
        if col_truthy cc && get_truthy p c
        then default (contract_total d) (p !! c) else contract_total d
      | None => contract_total d
      end.
Proof.
  intros Hn. unfold total_step.
  set (d1 := match cc with
             | Some c => if col_truthy cc && get_truthy p c
                         then set_contract_total (default (contract_total d) (p !! c)) d
                         else d
             | None => d end).
  assert (match cc with
          | Some c => if col_truthy cc && get_truthy p c
                      then v ← getitem p c; Ret (set_contract_total v d) else Ret d
          | None => Ret d end = Ret d1) as ->.
  { subst d1. destruct cc as [c|]; [|done].
    destruct (col_truthy (Some c) && get_truthy p c) eqn:E; [|done].
    apply andb_true_iff in E as [_ E]. unfold get_truthy in E. unfold getitem.
    by destruct (p !! c). }
  assert (phases d1 = phases d ∧ headers d1 = headers d
          ∧ billed_total d1 = billed_total d) as (Hp & Hh & Hb).
  { subst d1. destruct cc as [c|]; [|done]. by destruct (_ && _). }
  assert (contract_total d1 = match cc with
      | Some c => if col_truthy cc && get_truthy p c
        then default (contract_total d) (p !! c) else contract_total d
      | None => contract_total d end) as Hc.
  { subst d1. destruct cc as [c|]; [|done]. by destruct (_ && _). }
  clearbody d1. simpl.
  destruct bc as [b|]; [|by exists d1; rewrite Hb].
  destruct (col_truthy (Some b)); [|by exists d1; rewrite Hb].
  destruct (is_number (default (VInt 0) (p !! b))) eqn:Ev;
    [|by exists d1; rewrite Hb].
  destruct (py_add_number (billed_total d1) (default (VInt 0) (p !! b)))
    as (t & -> & Ht); [by rewrite Hb | done |].
  simpl. by eexists.
Qed.

Lemma totals_loop_ret (cc bc : option pystr) (ps : list (gmap pystr (pyval F))) d :
  is_number (billed_total d) = true →
  ∃ d', for_each (total_step cc bc) ps d = Ret d'
    ∧ phases d' = phases d ∧ headers d' = headers d
    ∧ contract_total d' =
      match cc with
      | Some c =>
        match last_such (λ p, col_truthy cc && get_truthy p c) ps with
        | Some p => default (contract_total d) (p !! c)
        | None => contract_total d
        end
      | None => contract_total d
      end.
Proof.
  revert d. induction ps as [|p ps IH]; intros d Hn.
  - exists d. by destruct cc.
  - destruct (total_step_ret cc bc d p Hn) as (d1 & Hs & Hp & Hh & Hn1 & Hc).
    destruct (IH d1 Hn1) as (d' & Hl & Hp' & Hh' & Hc').
    exists d'. simpl. rewrite Hs. simpl.
    split; [done|]. split; [congruence|]. split; [congruence|].
    rewrite Hc'. destruct cc as [c|]; [|done].
    rewrite last_filter_cons.
    destruct (last_such _ ps) as [q|] eqn:Eq.
    + apply last_such_true, andb_true_iff in Eq as [_ Eq].
      unfold get_truthy in Eq. by destruct (q !! c).
    + rewrite Hc. destruct (col_truthy (Some c) && get_truthy p c) eqn:E; [|done].
      apply andb_true_iff in E as [_ E].
      unfold get_truthy in E. by destruct (p !! c).
Qed.

(** *** The whole extraction *)

Lemma extract_ret (pages : list page) :
  ∃ ct bt,
    extract pages =
    Ret (Data ct bt
           (flat_map table_phases (List.filter qualifies (all_tables pages)))
           (match last (List.filter qualifies (all_tables pages)) with
            | Some t => build_headers (header_row t)
            | None => []
            end)).
Proof.
  unfold extract. rewrite tables_loop_ret. simpl.
  case_bool_decide as Hph; [by eexists _, _|].
  rewrite select_cols_ret. simpl.
  edestruct (totals_loop_ret) as (d' & -> & Hp & Hh & _); [|].
  2: { exists (contract_total d'), (billed_total d').
       f_equal. destruct d'. simpl in *. by subst. }
  done.
Qed.

(** *** Keys of a phase *)

Lemma dom_put_loop hdrs (l : list (nat * cell)) ph :
  dom (foldl (put_cell hdrs) ph l)
  = dom ph ∪ list_to_set ((λ ic, col_name hdrs ic.1) <$> l).
Proof.
  revert ph. induction l as [|ic l IH]; intros ph; simpl.
  - by rewrite union_empty_r_L.
  - rewrite IH. unfold put_cell. rewrite dom_insert_L.
    rewrite (comm_L (∪) _ (dom ph)). by rewrite <- (assoc_L (∪)).
Qed.

Lemma row_names hdrs row :
  (length row ≤ length hdrs)%nat →
  (λ ic : nat * cell, col_name hdrs ic.1) <$> imap pair row
  = take (length row) hdrs.
Proof.
  intros Hlen. apply list_eq. intros i.
  rewrite list_lookup_fmap, list_lookup_imap.
  destruct (row !! i) as [c|] eqn:E; simpl.
  - apply lookup_lt_Some in E.
    rewrite lookup_take_lt by done. unfold col_name.
    destruct (lookup_lt_is_Some_2 hdrs i) as [h ->]; [lia | done].
  - apply lookup_ge_None in E. by rewrite lookup_take_ge.
Qed.

Lemma dom_cells_phase hdrs row :
  (length row ≤ length hdrs)%nat →
  dom (cells_phase hdrs row) = list_to_set (take (length row) hdrs).
Proof.
  intros Hlen. unfold cells_phase.
  rewrite dom_put_loop, row_names by done.
  by rewrite dom_empty_L, union_empty_l_L.
Qed.

Lemma dom_row_phase hdrs row :
  dom (row_phase hdrs row) = {[ u "_stage" ]} ∪ dom (cells_phase hdrs row).
Proof. unfold row_phase. by rewrite dom_insert_L. Qed.

Lemma length_build_headers (header : list cell) :
  length (build_headers header) = length header.
Proof. apply length_imap. Qed.

Lemma elem_of_filter_bool {A} (P : A → bool) (l : list A) (x : A) :
  x ∈ List.filter P l ↔ x ∈ l ∧ P x = true.
Proof. rewrite !list_elem_of_In. apply List.filter_In. Qed.

Lemma phase_in_result (pages : list page) t row :
  t ∈ all_tables pages → qualifies t = true →
  row ∈ drop 1 t → row_kept row = true →
  row_phase (build_headers (header_row t)) row
  ∈ flat_map table_phases (List.filter qualifies (all_tables pages)).
Proof.
  intros Ht Hq Hrow Hk. apply list_elem_of_In, List.in_flat_map.
  exists t. split; [by apply list_elem_of_In, elem_of_filter_bool|].
  apply list_elem_of_In, list_elem_of_fmap_2. by apply elem_of_filter_bool.
Qed.

(** *** The properties of the specification *)

(** The table loop, lines 155-209, in closed form: it has no [break], so
    [phases] collects the kept rows of every qualifying table, each row
    keyed by the headers of its own table, while [headers] is assigned anew
    at every qualifying table and ends as the last one's. *)
Lemma table_loop_result (pages : list page) :
  ∃ d,
    extract pages = Ret d
    ∧ phases d = flat_map table_phases (List.filter qualifies (all_tables pages))
    ∧ headers d =
      match last (List.filter qualifies (all_tables pages)) with
      | Some t => build_headers (header_row t)
      | None => []
      end.
Proof.
  destruct (extract_ret pages) as (ct & bt & ->). by eexists.
Qed.

(** C2 (as amended): the contract-amount column is the last header that
    contains the amount token and neither the account nor the cumulative
    token; the billed column is the last header that contains one of the two
    invoice tokens, and the first header of the list when none does. *)
Theorem select_cols_last_match hdrs :
  ∃ contract_col billed_col,
    select_cols hdrs = Ret (contract_col, billed_col)
    ∧ contract_col = last_such is_contract_header hdrs
    ∧ billed_col =
      match last_such is_billed_header hdrs with
      | Some h => Some h
      | None => head hdrs
      end.
Proof. rewrite select_cols_ret. by eexists _, _. Qed.

(** C3: for every sequence of phases and selected contract-amount column,
    the total loop ends with [contract_total] equal to the value that the
    last phase with a truthy value under that column holds there, and with
    the initial 0 when no phase has one. *)
Theorem contract_total_last_write (c : pystr) (billed_col : option pystr)
    (ps : list (gmap pystr (pyval F))) hdrs :
  c ≠ [] →
  ∃ d,
    for_each (total_step (Some c) billed_col) ps (Data (VInt 0) (VInt 0) ps hdrs)
    = Ret d
    ∧ match last_such (λ p, get_truthy p c) ps with
      | Some p => p !! c = Some (contract_total d)
      | None => contract_total d = VInt 0
      end.
Proof.
  intros Hc.
  destruct (totals_loop_ret (Some c) billed_col ps (Data (VInt 0) (VInt 0) ps hdrs))
    as (d & Hd & _ & _ & Hct); [done|].
  exists d. split; [done|]. rewrite Hct.
  destruct c as [|x c]; [done|]. simpl.
  destruct (last_such _ ps) as [p|] eqn:E; [|done].
  apply last_such_true in E. unfold get_truthy in E. simpl in E.
  by destruct (p !! (x :: c)).
Qed.

(** Rows that hold one of the five listed markers produce no phase. *)
Lemma listed_marker_row_skipped d row :
  any_in skip_words (joined_cells row) = true → row_step d row = Ret d.
Proof.
  intros H. rewrite row_step_ret. unfold row_kept. rewrite H.
  by rewrite andb_false_r.
Qed.

(** C5 (as amended): when every kept row of a qualifying table has as many
    cells as the table's header row, and the qualifying tables agree on
    their headers (as when there is only one), every phase has exactly the
    keys of [headers] plus [_stage]. *)
Theorem phase_keys (pages : list page) :
  (∀ t row, t ∈ all_tables pages → qualifies t = true →
     row ∈ drop 1 t → row_kept row = true →
     length row = length (header_row t)) →
  (∀ t t', t ∈ all_tables pages → t' ∈ all_tables pages →
     qualifies t = true → qualifies t' = true →
     build_headers (header_row t) = build_headers (header_row t')) →
  ∃ d,
    extract pages = Ret d
    ∧ ∀ ph, ph ∈ phases d →
        dom ph = list_to_set (headers d) ∪ {[ u "_stage" ]}.
Proof.
  intros Hrect Hsame.
  destruct (extract_ret pages) as (ct & bt & ->). eexists. split; [done|].
  simpl. intros ph Hph.
  apply list_elem_of_In, List.in_flat_map in Hph as (t & Ht & Hph).
  apply list_elem_of_In, elem_of_filter_bool in Ht as [Ht Hq].
  apply list_elem_of_In in Hph. unfold table_phases in Hph.
  apply list_elem_of_fmap in Hph as (row & -> & Hrow).
  apply elem_of_filter_bool in Hrow as [Hrow Hk].
  destruct (last (List.filter qualifies (all_tables pages))) as [t'|] eqn:El.
  - apply last_Some_elem_of, elem_of_filter_bool in El as [Ht' Hq'].
    rewrite <- (Hsame t t') by done.
    rewrite dom_row_phase, dom_cells_phase, take_ge;
      rewrite ?length_build_headers, ?(Hrect t row); try done.
    apply (comm_L (∪)).
  - apply last_None in El.
    assert (t ∈ List.filter qualifies (all_tables pages)) as Hin
      by by apply elem_of_filter_bool.
    rewrite El in Hin. by apply elem_of_nil in Hin.
Qed.

(** C7: the cell loop stores, under the name of the cell's column, the
    parsed number exactly when it is non-zero or the trimmed raw text is one
    of "0", "0.0", "0.00", and the Hebrew-fixed text otherwise.  With the
    builtin reading "0" as zero and rejecting "abc", raw "0" is stored as
    the number 0 and raw "abc" as the text "abc". *)
Theorem cell_storage_rule hdrs ph (i : nat) (c : cell) :
  (∃ ph' n,
     store_cell hdrs ph (i, c) = Ret ph'
     ∧ parse_num (Some (raw_value c)) = Ret n
     ∧ ph' !! col_name hdrs i =
       Some (if negb (feq0 n)
                || bool_decide (py_strip (raw_value c) ∈ zero_literals)
             then VFloat n
             else VStr (fix_hebrew (raw_value c))))
  ∧ (float_of_str (u "0") = Some f0 →
     store_cell hdrs ph (i, Some (u "0"))
     = Ret (<[col_name hdrs i := VFloat f0]> ph))
  ∧ (float_of_str (u "abc") = None →
     store_cell hdrs ph (i, Some (u "abc"))
     = Ret (<[col_name hdrs i := VStr (u "abc")]> ph)).
Proof.
  split; [|split].
  - exists (put_cell hdrs ph (i, c)), (num_value (raw_value c)).
    split; [apply store_cell_ret|]. split; [apply parse_num_num_value|].
    unfold put_cell. simpl. by rewrite lookup_insert_eq.
  - intros H0. rewrite store_cell_ret. unfold put_cell, cell_value. simpl.
    change (raw_value (Some (u "0"))) with (u "0").
    assert (num_value (u "0") = f0) as ->.
    { unfold num_value. rewrite parse_num_closed.
      change (cleaned (u "0")) with (u "0"). by rewrite H0. }
    change (bool_decide (py_strip (u "0") ∈ zero_literals)) with true.
    by rewrite orb_true_r.
  - intros Habc. rewrite store_cell_ret. unfold put_cell, cell_value. simpl.
    change (raw_value (Some (u "abc"))) with (u "abc").
    assert (num_value (u "abc") = f0) as ->.
    { unfold num_value. rewrite parse_num_closed.
      change (cleaned (u "abc")) with (u "abc"). by rewrite Habc. }
    rewrite feq0_f0.
    change (bool_decide (py_strip (u "abc") ∈ zero_literals)) with false.
    by change (fix_hebrew (u "abc")) with (u "abc").
Qed.

(** C8: the numeric parser returns a number on every input and raises
    nothing: 0 for [None] and for the empty string, and 0 whenever what is
    left after removing commas, the currency glyph and percent signs and
    trimming is text the float conversion rejects. *)
Theorem parse_num_never_raises (s : option pystr) :
  (∃ x, parse_num s = Ret x)
  ∧ parse_num None = Ret f0
  ∧ parse_num (Some []) = Ret f0
  ∧ (∀ raw : pystr,
       s = Some raw → float_of_str (cleaned raw) = None → parse_num s = Ret f0).
Proof.
  split; [rewrite parse_num_closed; by eexists|].
  split; [done|]. split; [done|].
  intros raw -> Hf. rewrite parse_num_closed, Hf. by case_bool_decide.
Qed.

(** C9: when no table satisfies the milestone-table predicate, extraction
    returns, with no phases, no headers, and both totals 0. *)
Theorem no_milestone_table (pages : list page) :
  List.filter qualifies (all_tables pages) = [] →
  extract pages = Ret (Data (VInt 0) (VInt 0) [] []).
Proof.
  intros Hq. unfold extract. rewrite tables_loop_ret, Hq. done.
Qed.

(** C10 (as amended): every phase has a [_stage]; for a kept row with fewer
    cells than the headers, whose cells fill no column named like the last
    header, [_stage] is the empty string. *)
Theorem stage_of_short_row d row :
  row_kept row = true →
  ∃ ph,
    row_step d row = Ret (append_phase ph d)
    ∧ is_Some (ph !! u "_stage")
    ∧ ((length row < length (headers d))%nat →
       (∀ h, last (headers d) = Some h → h ∉ take (length row) (headers d)) →
       ph !! u "_stage" = Some (VStr [])).
Proof.
  intros Hk. exists (row_phase (headers d) row).
  split; [by rewrite row_step_ret, Hk|].
  unfold row_phase. rewrite lookup_insert_eq. split; [by eexists|].
  intros Hlen Hlast. f_equal.
  destruct (last (headers d)) as [h|] eqn:El.
  - unfold stage_col. rewrite El. simpl.
    assert (cells_phase (headers d) row !! h = None) as ->; [|done].
    apply not_elem_of_dom. rewrite dom_cells_phase by lia.
    rewrite elem_of_list_to_set. by apply Hlast.
  - apply last_None in El. rewrite El in Hlen. simpl in Hlen. lia.
Qed.

End ExtractorProperties.

(** ** Concrete documents (binary64 floats) *)

(** Refutes [H : x ∈ l] for a closed string [x] and a closed list [l]. *)
Ltac refute_elem_of H :=
  vm_compute in H;
  repeat (apply elem_of_cons in H as [H|H]; [discriminate H|]);
  by apply elem_of_nil in H.

(** Proves [x ∈ dom (row_phase hdrs row)] for a closed column name [x]. *)
Ltac prove_key :=
  rewrite dom_row_phase; apply elem_of_union_r;
  unfold cells_phase; rewrite dom_put_loop;
  apply elem_of_union_r, elem_of_list_to_set; vm_compute;
  repeat first [by apply elem_of_cons; left | apply elem_of_cons; right].

Example fix_hebrew_flips :
  fix_hebrew (u "  םוכס" ++ [NL] ++ u " x  ") = u "x סכום".
Proof. reflexivity. Qed.

Example fix_hebrew_keeps : fix_hebrew (u " שלב   תכנון ") = u "שלב תכנון".
Proof. reflexivity. Qed.

(** C1, counterexample: with a qualifying table on each of two pages the
    rows of the second table are in [phases] too. *)
Lemma two_tables_not_first_only : ¬ first_table_only (F:=float) two_tables.
Proof.
  intros H.
  destruct (extract_ret (F:=float) two_tables) as (ct & bt & Hd).
  destruct (H _ table_a [table_b] Hd) as [_ Hp]; [by vm_compute|].
  apply (f_equal length) in Hp. vm_compute in Hp. discriminate.
Qed.

(** C1: the table loop does not stop at the first qualifying table.  The
    document with the one qualifying table [table_a] yields that table's
    headers, its row and the contract total 1000.  With a second qualifying
    table on a later page the row of that table is in [phases] as well, and
    [headers] is overwritten with the later table's while the phase of the
    first table keeps its own keys: no header is an amount column any more,
    the contract total is 0, and the output row of the first phase holds
    nothing of its amount and the empty text under every header but the
    stage. *)
Theorem later_table_overwrites_headers :
  (∃ d, extract (F:=float) single_table = Ret d
      ∧ headers d = build_headers header_a
      ∧ phases d = table_phases table_a
      ∧ contract_total d = VFloat 1000%float)
  ∧ (∃ d, extract (F:=float) two_tables = Ret d
      ∧ headers d = build_headers header_b
      ∧ phases d = table_phases table_a ++ table_phases table_b
      ∧ length (phases d) = 2%nat
      ∧ contract_total d = VInt 0
      ∧ ∀ c v, ∃ out,
          (to_tracking_rows (Document c v d)).1 !! 0%nat = Some out
          ∧ out !! u "שלב" = Some (VFloat 1%float)
          ∧ out !! u "סכום" = None
          ∧ out !! u "הערה" = Some (VStr [])
          ∧ out !! u "כמות" = Some (VStr [])
          ∧ out !! u "מחיר" = Some (VStr [])).
Proof.
  split.
  - exists (Data (VFloat 1000%float) (VFloat 1%float)
              (table_phases table_a) (build_headers header_a)).
    split; [by vm_compute|done].
  - exists (Data (VInt 0) (VFloat 3%float)
              (table_phases table_a ++ table_phases table_b)
              (build_headers header_b)).
    split; [by vm_compute|]. do 4 (split; [done|]).
    intros c v. eexists. split; [reflexivity|].
    repeat split; by vm_compute.
Qed.

Example two_tables_result :
  ∃ d, extract (F:=float) two_tables = Ret d
    ∧ length (phases d) = 2%nat
    ∧ headers d = [u "שלב"; u "הערה"; u "כמות"; u "מחיר"].
Proof.
  destruct (extract_ret (F:=float) two_tables) as (ct & bt & ->).
  eexists. split; [done|]. by vm_compute.
Qed.

(** C2, counterexample: of two headers that match the contract-amount
    criterion the second is selected. *)
Lemma two_amounts_not_first : ¬ selects_first_match two_amounts.
Proof. unfold selects_first_match. vm_compute. discriminate. Qed.

Example two_amounts_result :
  select_cols two_amounts = Ret (Some (u "סכום נוסף"), Some (u "סכום")).
Proof. reflexivity. Qed.

(** C3, witness. *)
Lemma contract_total_last_write_witness :
  u "סכום" ≠ []
  ∧ ∃ d,
      for_each (total_step (Some (u "סכום")) None) amount_phases
        (Data (VInt 0) (VInt 0) amount_phases plain_headers) = Ret d
      ∧ match last_such (λ p, get_truthy p (u "סכום")) amount_phases with
        | Some p => p !! u "סכום" = Some (contract_total d)
        | None => contract_total d = VInt 0
        end.
Proof.
  split; [done|]. apply (contract_total_last_write (F:=float)). done.
Defined.

Example contract_total_is_second :
  contract_total <$> (match for_each (total_step (Some (u "סכום")) None) amount_phases
                          (Data (VInt 0) (VInt 0) amount_phases plain_headers)
                      with Ret d => Some d | Raise _ => None end)
  = Some (VFloat 2000%float).
Proof. by vm_compute. Qed.

(** C4: the row that carries the mirrored grand-total mark holds a summary
    marker and still produces a phase. *)
Lemma mirrored_total_row_kept :
  any_in summary_markers (joined_cells mirrored_total_row) = true
  ∧ ∃ d, extract (F:=float) mirrored_total = Ret d ∧ length (phases d) = 1%nat.
Proof.
  split; [by vm_compute|].
  destruct (extract_ret (F:=float) mirrored_total) as (ct & bt & ->).
  eexists. split; [done|]. by vm_compute.
Qed.

(** C5, counterexample: a row of five cells under four headers has the key
    [col_4]; with two qualifying tables the phases of the first are keyed
    by headers that are not the result's. *)
Lemma keys_not_headers :
  ¬ keys_are_headers (F:=float) long_row ∧ ¬ keys_are_headers (F:=float) two_tables.
Proof.
  split.
  - assert (col_ 4 ∈ dom (row_phase (F:=float) (build_headers header_a)
              [txt "1"; txt "תכנון"; txt "10%"; txt "1,000"; txt "x"])) as Hin
      by prove_key.
    intros H.
    destruct (extract_ret (F:=float) long_row) as (ct & bt & Hd).
    pose proof (H _ _ Hd (phase_in_result long_row _
      [txt "1"; txt "תכנון"; txt "10%"; txt "1,000"; txt "x"]
      ltac:(by apply list_elem_of_singleton) eq_refl
      ltac:(by apply list_elem_of_singleton) eq_refl)) as Hdom.
    clear H Hd. cbn [headers] in Hdom.
    change (header_row [header_a; _]) with header_a in Hdom.
    rewrite Hdom in Hin. clear Hdom.
    apply elem_of_union in Hin as [Hin%elem_of_list_to_set|Hin%elem_of_singleton];
      [refute_elem_of Hin | by vm_compute in Hin].
  - assert (u "תיאור" ∈ dom (row_phase (F:=float) (build_headers header_a)
              [txt "1"; txt "תכנון"; txt "10%"; txt "1,000"])) as Hin
      by prove_key.
    intros H.
    destruct (extract_ret (F:=float) two_tables) as (ct & bt & Hd).
    pose proof (H _ _ Hd (phase_in_result two_tables table_a
      [txt "1"; txt "תכנון"; txt "10%"; txt "1,000"]
      ltac:(by apply elem_of_cons; left) eq_refl
      ltac:(by apply list_elem_of_singleton) eq_refl)) as Hdom.
    clear H Hd. cbn [headers] in Hdom.
    change (header_row table_a) with header_a in Hdom.
    rewrite Hdom in Hin. clear Hdom.
    apply elem_of_union in Hin as [Hin%elem_of_list_to_set|Hin%elem_of_singleton];
      [refute_elem_of Hin | by vm_compute in Hin].
Qed.

(** C5, witness: one rectangular qualifying table. *)
Lemma phase_keys_witness :
  ∃ d,
    extract (F:=float) [Page None [table_a]] = Ret d
    ∧ ∀ ph, ph ∈ phases d →
        dom ph = list_to_set (headers d) ∪ {[ u "_stage" ]}.
Proof.
  apply (phase_keys (F:=float)).
  - intros t row Ht%list_elem_of_singleton _ Hrow _. subst t.
    apply list_elem_of_singleton in Hrow. by subst row.
  - by intros t t' ->%list_elem_of_singleton ->%list_elem_of_singleton _ _.
Defined.

(** C7, witness. *)
Lemma cell_storage_rule_witness :
  store_cell (F:=float) plain_headers ∅ (0%nat, Some (u "0"))
  = Ret (<[col_name plain_headers 0 := VFloat f0]> ∅)
  ∧ store_cell (F:=float) plain_headers ∅ (0%nat, Some (u "abc"))
    = Ret (<[col_name plain_headers 0 := VStr (u "abc")]> ∅).
Proof.
  destruct (cell_storage_rule (F:=float) plain_headers ∅ 0 None) as (_ & H0 & Habc).
  split; [apply H0 | apply Habc]; reflexivity.
Defined.

(** C8, witness. *)
Lemma parse_num_never_raises_witness :
  float_of_str (F:=float) (cleaned (u "abc")) = None
  ∧ parse_num (F:=float) (Some (u "abc")) = Ret f0.
Proof.
  split; [reflexivity|].
  destruct (parse_num_never_raises (F:=float) (Some (u "abc"))) as (_ & _ & _ & H).
  apply (H (u "abc")); reflexivity.
Defined.

Example parse_num_amount : parse_num (F:=float) (Some (u " ₪1,000.50 ")) = Ret 1000.5%float.
Proof. by vm_compute. Qed.

(** C9, witness. *)
Lemma no_milestone_table_witness :
  List.filter qualifies (all_tables no_milestones) = []
  ∧ extract (F:=float) no_milestones = Ret (Data (VInt 0) (VInt 0) [] []).
Proof.
  split; [reflexivity|]. apply (no_milestone_table (F:=float)). reflexivity.
Defined.

(** C10, counterexample: the last header repeats the name of the first, so
    a row of three cells has a value under it and [_stage] is that cell. *)
Lemma repeated_header_stage : ¬ short_row_stage_empty (F:=float) repeated_header short_row.
Proof.
  intros H.
  destruct (H eq_refl ltac:(simpl; lia)
              (Data (VInt 0) (VInt 0) [] repeated_header) _ eq_refl
              (row_step_ret _ _)) as (ph & Hl & Hs).
  change (row_kept short_row) with true in Hl. simpl in Hl.
  injection Hl as <-. vm_compute in Hs. discriminate.
Qed.

Example repeated_header_result :
  row_phase (F:=float) repeated_header short_row !! u "_stage" = Some (VStr (u "x")).
Proof. by vm_compute. Qed.

(** C10, witness. *)
Lemma stage_of_short_row_witness :
  row_kept short_row = true
  ∧ ∃ ph,
      row_step (F:=float) (Data (VInt 0) (VInt 0) [] plain_headers) short_row
      = Ret (append_phase ph (Data (VInt 0) (VInt 0) [] plain_headers))
      ∧ ph !! u "_stage" = Some (VStr []).
Proof.
  split; [reflexivity|].
  destruct (stage_of_short_row (F:=float)
              (Data (VInt 0) (VInt 0) [] plain_headers) short_row eq_refl)
    as (ph & Hr & _ & Hs).
  exists ph. split; [exact Hr|]. apply Hs.
  - simpl. lia.
  - intros h [= <-] Hin. refute_elem_of Hin.
Defined.

(** * More of [app.py] *)

(** ** Strings, again *)

Lemma contains_cons (p : pystr) (c : N) (t : pystr) :
  contains p (c :: t) = starts_with p (c :: t) || contains p t.
Proof. reflexivity. Qed.

Lemma contains_reverse (p t : pystr) :
  contains (reverse p) (reverse t) = contains p t.
Proof.
  apply eq_true_iff_eq. rewrite !contains_spec. split.
  - intros (a & b & H). exists (reverse b), (reverse a).
    apply (f_equal reverse) in H.
    by rewrite !reverse_app, !reverse_involutive, <- app_assoc in H.
  - intros (a & b & ->). exists (reverse b), (reverse a).
    by rewrite !reverse_app, <- app_assoc.
Qed.

Lemma contains_suffix (p s t : pystr) :
  s `suffix_of` t → contains p s = true → contains p t = true.
Proof.
  intros [k ->]. rewrite !contains_spec. intros (a & b & ->).
  exists (k ++ a), b. by rewrite <- app_assoc.
Qed.

Lemma any_in_intro (pats : list pystr) (p t : pystr) :
  p ∈ pats → contains p t = true → any_in pats t = true.
Proof.
  intros Hp Ht. apply existsb_exists. exists p.
  by split; [apply list_elem_of_In|].
Qed.

(** [fix_hebrew] in terms of the normalised text. *)
Lemma fix_hebrew_unfold (s : pystr) :
  fix_hebrew s =
  if any_in reversed_patterns (spec_normalize s)
  then reverse (spec_normalize s) else spec_normalize s.
Proof.
  unfold fix_hebrew. case_bool_decide as Hs; [by subst s|].
  cbv zeta.
  assert (py_split (replace1 CR [SP] (replace1 NL [SP] (py_strip s))) = py_split s)
    as ->.
  { unfold py_split at 1.
    rewrite !split_go_replace_space by done. apply split_strip. }
  by rewrite join_split_spec.
Qed.

Lemma split_clean_words (s : pystr) : Forall clean_word (py_split s).
Proof.
  apply Forall_forall. intros x Hx. split; [by eapply split_go_nonempty|].
  by eapply split_go_clean.
Qed.

Lemma clean_word_head (x : pystr) :
  clean_word x → ∃ c r, x = c :: r ∧ py_isspace c = false.
Proof.
  intros [Hne Hx]. destruct x as [|c r]; [done|].
  exists c, r. split; [done|]. by inversion Hx.
Qed.

Lemma contains_two_spaces_word (x rest : pystr) :
  Forall (λ c, py_isspace c = false) x →
  contains [SP; SP] (x ++ rest) = contains [SP; SP] rest.
Proof.
  induction 1 as [|c x Hc _ IH]; [done|].
  rewrite <- app_comm_cons, contains_cons, IH.
  assert ((SP =? c) = false) as Hne.
  { apply N.eqb_neq. intros <-. by rewrite isspace_SP in Hc. }
  cbn [starts_with app]. by rewrite Hne.
Qed.

Lemma join_head (ws : list pystr) :
  Forall clean_word ws → head (py_join [SP] ws) ≠ Some SP.
Proof.
  intros Hws. destruct Hws as [|x ws Hx _]; [done|].
  destruct (clean_word_head x Hx) as (c & r & -> & Hc).
  assert (head (py_join [SP] ((c :: r) :: ws)) = Some c) as ->
    by by destruct ws.
  intros [= ->]. by rewrite isspace_SP in Hc.
Qed.

Lemma join_no_two_spaces (ws : list pystr) :
  Forall clean_word ws → contains [SP; SP] (py_join [SP] ws) = false.
Proof.
  induction 1 as [|x ws Hx Hws IH]; [done|].
  destruct ws as [|y ws].
  - simpl. rewrite <- (app_nil_r x), contains_two_spaces_word; [done|apply Hx].
  - change (py_join [SP] (x :: y :: ws)) with (x ++ SP :: py_join [SP] (y :: ws)).
    rewrite contains_two_spaces_word by apply Hx.
    rewrite contains_cons, IH, orb_false_r.
    pose proof (join_head (y :: ws) Hws) as Hh.
    destruct (py_join [SP] (y :: ws)) as [|c r] eqn:E; [done|].
    cbn [starts_with]. destruct (SP =? c) eqn:Ec; [|done].
    apply N.eqb_eq in Ec. by subst c.
Qed.

Lemma join_spaces_only (ws : list pystr) :
  Forall clean_word ws →
  Forall (λ c, py_isspace c = true → c = SP) (py_join [SP] ws).
Proof.
  assert (∀ x, clean_word x → Forall (λ c, py_isspace c = true → c = SP) x) as Hw.
  { intros x [_ Hx]. eapply Forall_impl; [exact Hx|]. simpl. congruence. }
  induction 1 as [|x ws Hx Hws IH]; [done|].
  destruct ws as [|y ws]; [by apply Hw|].
  change (py_join [SP] (x :: y :: ws)) with (x ++ SP :: py_join [SP] (y :: ws)).
  apply Forall_app. split; [by apply Hw|]. by constructor.
Qed.

Lemma join_last (ws : list pystr) :
  Forall clean_word ws → last (py_join [SP] ws) ≠ Some SP.
Proof.
  induction 1 as [|x ws Hx Hws IH]; [done|].
  destruct ws as [|y ws].
  - simpl. destruct Hx as [Hne Hx]. intros Hl.
    apply last_Some_elem_of in Hl.
    rewrite Forall_forall in Hx. apply Hx in Hl. by rewrite isspace_SP in Hl.
  - change (py_join [SP] (x :: y :: ws)) with (x ++ SP :: py_join [SP] (y :: ws)).
    destruct (py_join [SP] (y :: ws)) as [|c r] eqn:E.
    + destruct (clean_word_head y) as (c & r & -> & _);
        [by inversion Hws|]. by destruct ws.
    + rewrite last_app. change (last (SP :: c :: r)) with (last (c :: r)).
      destruct (last (c :: r)) as [z|] eqn:Ez; [done | by apply last_None in Ez].
Qed.

Lemma join_tidy (ws : list pystr) : Forall clean_word ws → tidy (py_join [SP] ws).
Proof.
  intros H. repeat split.
  - by apply join_spaces_only.
  - by apply join_no_two_spaces.
  - by apply join_head.
  - by apply join_last.
Qed.

Lemma reverse_tidy (t : pystr) : tidy t → tidy (reverse t).
Proof.
  intros (Hs & Hc & Hh & Hl). repeat split.
  - by apply Forall_reverse.
  - change [SP; SP] with (reverse [SP; SP]). by rewrite contains_reverse.
  - by rewrite head_reverse.
  - by rewrite last_reverse.
Qed.

(** X1: the text [fix_hebrew] returns is tidy: its only whitespace is
    single spaces between words, with none at either end; so a normalised
    cell holds no newline, tab or doubled space. *)
Theorem fix_hebrew_tidy (s : pystr) : tidy (fix_hebrew s).
Proof.
  rewrite fix_hebrew_unfold, <- join_split_spec.
  pose proof (join_tidy _ (split_clean_words s)) as Ht.
  destruct (any_in _ _); [by apply reverse_tidy | done].
Qed.

(** X2: when the normalised text holds one of the mirrored fragments,
    what [fix_hebrew] returns holds that fragment in reading order. *)
Theorem fix_hebrew_restores_fragment (s p : pystr) :
  p ∈ reversed_patterns →
  contains p (spec_normalize s) = true →
  contains (reverse p) (fix_hebrew s) = true.
Proof.
  intros Hp Hc. rewrite fix_hebrew_unfold.
  rewrite (any_in_intro _ p) by done. by rewrite contains_reverse.
Qed.

(** X3: on text without a mirrored fragment, applying [fix_hebrew] a second
    time changes nothing. *)
Theorem fix_hebrew_idempotent (s : pystr) :
  any_in reversed_patterns (spec_normalize s) = false →
  fix_hebrew (fix_hebrew s) = fix_hebrew s.
Proof.
  intros H. rewrite (fix_hebrew_unfold s), H.
  by rewrite fix_hebrew_unfold, normalize_idempotent, H.
Qed.

(** Proves [x ∈ l] for a closed [x] and a closed list [l]. *)
Ltac elem_of_closed :=
  vm_compute;
  repeat first [by apply elem_of_cons; left | apply elem_of_cons; right].

Lemma elem_of_replace1_nil (c x : N) (t : pystr) :
  x ∈ replace1 c [] t ↔ x ∈ t ∧ x ≠ c.
Proof.
  unfold replace1. induction t as [|y t IH]; simpl.
  - split; [by intros ?%elem_of_nil | by intros [?%elem_of_nil _]].
  - rewrite elem_of_app, IH, elem_of_cons.
    destruct (y =? c) eqn:E.
    + apply N.eqb_eq in E. subst y. split.
      * intros [?%elem_of_nil|[? ?]]; [done | auto].
      * intros [[->|?] ?]; [done | auto].
    + apply N.eqb_neq in E. rewrite list_elem_of_singleton. split.
      * intros [->|[? ?]]; auto.
      * intros [[->|?] ?]; auto.
Qed.

Lemma replace1_nil_absent (c : N) (t : pystr) :
  c ∉ t → replace1 c [] t = t.
Proof.
  unfold replace1. induction t as [|y t IH]; [done|].
  intros Hc. apply not_elem_of_cons in Hc as [Hne Hc]. simpl.
  assert ((y =? c) = false) as -> by (apply N.eqb_neq; congruence).
  simpl. by rewrite IH.
Qed.

Lemma elem_of_lstrip (x : N) (t : pystr) : x ∈ py_lstrip t → x ∈ t.
Proof.
  induction t as [|c t IH]; simpl; [done|].
  destruct (py_isspace c); [|done]. intros H. apply elem_of_cons. auto.
Qed.

Lemma elem_of_strip (x : N) (t : pystr) : x ∈ py_strip t → x ∈ t.
Proof.
  unfold py_strip, py_rstrip. rewrite elem_of_reverse.
  intros H%elem_of_lstrip. rewrite elem_of_reverse in H.
  by apply elem_of_lstrip.
Qed.

Lemma lstrip_idempotent (t : pystr) : py_lstrip (py_lstrip t) = py_lstrip t.
Proof.
  induction t as [|c t IH]; simpl; [done|].
  destruct (py_isspace c) eqn:E; [done|]. simpl. by rewrite E.
Qed.

Lemma lstrip_rstrip (t : pystr) :
  py_lstrip t = t → py_lstrip (py_rstrip t) = py_rstrip t.
Proof.
  destruct t as [|c t]; [done|]. simpl.
  destruct (py_isspace c) eqn:E.
  - intros H. apply (f_equal length) in H.
    assert (length (py_lstrip t) ≤ length t)%nat.
    { clear. induction t as [|d t IH]; simpl; [done|].
      destruct (py_isspace d); simpl; lia. }
    simpl in H. lia.
  - intros _. rewrite rstrip_cons, E. simpl. by rewrite E.
Qed.

Lemma strip_idempotent (t : pystr) : py_strip (py_strip t) = py_strip t.
Proof.
  unfold py_strip. rewrite lstrip_rstrip by apply lstrip_idempotent.
  unfold py_rstrip. by rewrite reverse_involutive, lstrip_idempotent.
Qed.

Lemma cleaned_idempotent (s : pystr) : cleaned (cleaned s) = cleaned s.
Proof.
  unfold cleaned at 1.
  assert (∀ c, c ∈ [COMMA; SHEKEL; PERCENT] → c ∉ cleaned s) as Hno.
  { intros c Hc Hin. unfold cleaned in Hin. apply elem_of_strip in Hin.
    rewrite !elem_of_replace1_nil in Hin.
    destruct Hin as [[[_ H1] H2] H3].
    apply elem_of_cons in Hc as [->|Hc]; [done|].
    apply elem_of_cons in Hc as [->|Hc]; [done|].
    apply list_elem_of_singleton in Hc as ->. done. }
  rewrite (replace1_nil_absent COMMA) by (apply Hno; elem_of_closed).
  rewrite (replace1_nil_absent SHEKEL) by (apply Hno; elem_of_closed).
  rewrite (replace1_nil_absent PERCENT) by (apply Hno; elem_of_closed).
  apply strip_idempotent.
Qed.

Lemma lstrip_blank (t : pystr) :
  Forall (λ c, py_isspace c = true) t → py_lstrip t = [].
Proof. induction 1 as [|c t Hc _ IH]; simpl; [done|]. by rewrite Hc. Qed.

Lemma col_prefix_inj (i j : nat) : col_ i = col_ j → i = j.
Proof.
  unfold col_, str_of_nat. intros H%app_inv_head.
  apply DecimalNat.Unsigned.to_uint_inj.
  revert H. generalize (Nat.to_uint i) (Nat.to_uint j). clear.
  induction u0 as [| d IH | d IH | d IH | d IH | d IH | d IH | d IH | d IH | d IH | d IH];
    intros [| e | e | e | e | e | e | e | e | e | e] H;
    try discriminate H; try reflexivity;
    injection H as H; f_equal; by apply IH.
Qed.

Lemma find_pointwise {A} (f g : A → bool) (l : list A) :
  (∀ x, f x = g x) → List.find f l = List.find g l.
Proof.
  intros H. induction l as [|x l IH]; simpl; [done|].
  rewrite H, IH. done.
Qed.

#[local] Arguments stage_lookup : simpl never.

(** The second loop of [get_milestone_column] is the first loop on the
    mirrored name. *)
Lemma stage_lookup_reverse (s : pystr) :
  stage_lookup reverse s = stage_lookup id (reverse s).
Proof.
  unfold stage_lookup. f_equal. apply find_pointwise. intros [p c]. simpl.
  by rewrite <- (contains_reverse p (reverse s)), reverse_involutive.
Qed.

Lemma stage_lookup_elem (f : pystr → pystr) (s c : pystr) :
  stage_lookup f s = Some c → ∃ p, (p, c) ∈ STAGE_TO_COLUMN.
Proof.
  unfold stage_lookup. destruct (List.find _ _) as [[p c']|] eqn:E; [|done].
  intros [= <-]. apply List.find_some in E as [E _].
  exists p. by apply list_elem_of_In.
Qed.

Lemma stage_columns_are_milestones :
  Forall (λ pc : pystr * pystr, pc.2 ∈ MILESTONE_COLS ∧ pc.2 ∈ COLS) STAGE_TO_COLUMN.
Proof.
  unfold STAGE_TO_COLUMN.
  repeat (apply Forall_cons; split; [split; cbn [snd]; elem_of_closed|]).
  constructor.
Qed.

Lemma get_milestone_column_cons (x : N) (s : pystr) :
  get_milestone_column (Some (x :: s)) =
  match stage_lookup id (x :: s) with
  | Some c => Some c
  | None => stage_lookup reverse (x :: s)
  end.
Proof. reflexivity. Qed.

(** X5: whatever the stage name, the column [get_milestone_column] returns
    is one of the eight milestone columns, which are output columns. *)
Theorem milestone_column_range (stage_name : option pystr) (col : pystr) :
  get_milestone_column stage_name = Some col →
  col ∈ MILESTONE_COLS ∧ col ∈ COLS.
Proof.
  intros H.
  assert (∃ p, (p, col) ∈ STAGE_TO_COLUMN) as [p Hp].
  { destruct stage_name as [s|]; [|discriminate H].
    destruct s as [|x s]; [discriminate H|].
    rewrite get_milestone_column_cons in H.
    destruct (stage_lookup id (x :: s)) as [c|] eqn:E.
    - injection H as ->. exact (stage_lookup_elem _ _ _ E).
    - exact (stage_lookup_elem _ _ _ H). }
  pose proof stage_columns_are_milestones as Hall.
  rewrite Forall_forall in Hall. apply (Hall _ Hp).
Qed.

(** X6: a stage name that a pattern maps to a column, and whose mirror image
    holds no pattern itself, maps to that column in both directions of
    writing. *)
Theorem milestone_column_mirrored (s col : pystr) :
  stage_lookup id s = Some col →
  stage_lookup id (reverse s) = None →
  get_milestone_column (Some s) = Some col
  ∧ get_milestone_column (Some (reverse s)) = Some col.
Proof.
  intros Hs Hr.
  assert (s ≠ []) as Hne.
  { intros ->. vm_compute in Hs. discriminate Hs. }
  split.
  - destruct s as [|x s]; [done|].
    rewrite get_milestone_column_cons, Hs. reflexivity.
  - destruct (reverse s) as [|x r] eqn:E.
    + apply (f_equal reverse) in E. rewrite reverse_involutive in E. done.
    + rewrite get_milestone_column_cons, Hr, <- E.
      rewrite stage_lookup_reverse, reverse_involutive. exact Hs.
Qed.

(** ** Patterns *)

Lemma many_suffix (k : pystr → pystr → option pystr) greedy p opened s g enough x :
  many k greedy p opened s g enough = Some x →
  ∃ s' g', s' `suffix_of` s ∧ k s' g' = Some x.
Proof.
  revert g enough. induction s as [|c r IH]; intros g enough; simpl.
  - destruct enough; [|done]. intros H. by exists [], g.
  - assert ((if enough then k (c :: r) g else None) = Some x →
            ∃ s' g', s' `suffix_of` c :: r ∧ k s' g' = Some x) as Hstop.
    { destruct enough; [|done]. intros H. by exists (c :: r), g. }
    assert (many k greedy p opened r (capture opened g c) true = Some x →
            ∃ s' g', s' `suffix_of` c :: r ∧ k s' g' = Some x) as Hmore.
    { intros (s' & g' & Hs & Hk)%IH. exists s', g'.
      split; [by apply suffix_cons_r | done]. }
    destruct (p c); [|exact Hstop].
    destruct greedy.
    + destruct (many k true p opened r (capture opened g c) true) eqn:E.
      * intros [= ->]. by apply Hmore.
      * exact Hstop.
    + destruct (if enough then k (c :: r) g else None) eqn:E.
      * intros [= ->]. by apply Hstop.
      * exact Hmore.
Qed.

Lemma many_at_least_one (k : pystr → pystr → option pystr) greedy p opened s g x :
  many k greedy p opened s g false = Some x → ∃ c, c ∈ s ∧ p c = true.
Proof.
  destruct s as [|c r]; simpl; [done|].
  destruct (p c) eqn:E; [|done]. intros _. exists c.
  split; [apply elem_of_cons; by left | done].
Qed.

Lemma re_match_item_suffix (it : item) rest s opened g x :
  re_match (it :: rest) s opened g = Some x →
  ∃ s' o' g', s' `suffix_of` s ∧ re_match rest s' o' g' = Some x.
Proof.
  destruct it as [p|greedy plus p|p| |]; simpl.
  - destruct s as [|c r]; [done|]. destruct (p c); [|done].
    intros H. exists r, opened, (capture opened g c).
    split; [by apply suffix_cons_r | done].
  - intros (s' & g' & Hs & Hk)%many_suffix. by exists s', opened, g'.
  - assert (re_match rest s opened g = Some x →
            ∃ s' o' g', s' `suffix_of` s ∧ re_match rest s' o' g' = Some x) as Hskip.
    { intros H. by exists s, opened, g. }
    destruct s as [|c r]; [exact Hskip|].
    destruct (p c); [|exact Hskip].
    destruct (re_match rest r opened (capture opened g c)) eqn:E; [|exact Hskip].
    intros [= ->]. exists r, opened, (capture opened g c).
    split; [by apply suffix_cons_r | done].
  - intros H. by exists s, true, [].
  - intros H. by exists s, false, g.
Qed.

Lemma re_match_app_suffix (pre rest : list item) s opened g x :
  re_match (pre ++ rest) s opened g = Some x →
  ∃ s' o' g', s' `suffix_of` s ∧ re_match rest s' o' g' = Some x.
Proof.
  revert s opened g. induction pre as [|it pre IH]; intros s opened g.
  - intros H. by exists s, opened, g.
  - rewrite <- app_comm_cons.
    intros (s1 & o1 & g1 & Hs1 & H1)%re_match_item_suffix.
    apply IH in H1 as (s2 & o2 & g2 & Hs2 & H2).
    exists s2, o2, g2. split; [by etrans | done].
Qed.

Lemma re_match_lit (w : pystr) (rest : list item) s opened g x :
  re_match (lit w ++ rest) s opened g = Some x → starts_with w s = true.
Proof.
  revert s g. induction w as [|a w IH]; intros s g; [done|].
  simpl. destruct s as [|c r]; [done|].
  destruct (a =? c); [|done]. simpl. apply IH.
Qed.

Lemma re_search_suffix (its : list item) s x :
  re_search its s = Some x →
  ∃ s', s' `suffix_of` s ∧ re_match its s' false [] = Some x.
Proof.
  induction s as [|c r IH]; simpl.
  - destruct (re_match its [] false []) eqn:E; [|done].
    intros [= ->]. by exists [].
  - destruct (re_match its (c :: r) false []) eqn:E.
    + intros [= ->]. by exists (c :: r).
    + intros (s' & Hs & H)%IH. exists s'. split; [by apply suffix_cons_r | done].
Qed.

(** A pattern with a literal word is found only in text that holds the
    word. *)
Lemma re_search_needs_word (pre post : list item) (w s x : pystr) :
  re_search (pre ++ lit w ++ post) s = Some x → contains w s = true.
Proof.
  intros (s1 & Hs1 & H1)%re_search_suffix.
  apply re_match_app_suffix in H1 as (s2 & o2 & g2 & Hs2 & H2).
  apply re_match_lit, starts_with_spec in H2 as [b ->].
  apply (contains_suffix _ (w ++ b)); [by etrans|].
  apply contains_spec. by exists [], b.
Qed.

(** A pattern with a repetition from one is found only in text that holds
    a character of the repeated class. *)
Lemma re_search_needs_class (pre post : list item) greedy p (s x : pystr) :
  re_search (pre ++ Many greedy true p :: post) s = Some x →
  ∃ c, c ∈ s ∧ p c = true.
Proof.
  intros (s1 & Hs1 & H1)%re_search_suffix.
  apply re_match_app_suffix in H1 as (s2 & o2 & g2 & Hs2 & H2).
  simpl in H2. apply many_at_least_one in H2 as (c & Hc & Hp).
  exists c. split; [|done].
  assert (s2 `suffix_of` s) as [k ->] by by etrans.
  apply elem_of_app. by right.
Qed.

Lemma flat_map_all_nil {A B} (f : A → list B) (l : list A) :
  (∀ x, x ∈ l → f x = []) → flat_map f l = [].
Proof.
  induction l as [|x l IH]; intros H; simpl; [done|].
  rewrite (H x), IH; [done | | apply elem_of_cons; by left].
  intros y Hy. apply H, elem_of_cons. by right.
Qed.

Lemma filter_all_false {A} (P : A → bool) (l : list A) :
  (∀ x, x ∈ l → P x = false) → List.filter P l = [].
Proof.
  induction l as [|x l IH]; intros H; simpl; [done|].
  rewrite (H x), IH; [done | | apply elem_of_cons; by left].
  intros y Hy. apply H, elem_of_cons. by right.
Qed.

Section MoreProperties.

Context {F : Type} {PF : PyFloat F} {PU : PyUnicode}.

Implicit Types (d : data F) (row : list cell) (t : table) (hdrs : list pystr).
Implicit Types (ph : gmap pystr (pyval F)).

(** *** The numeric parser *)

(** X4: [parse_num] reads a text as it reads the text cleaned of commas,
    currency glyphs, percent signs and outer whitespace, and cleaning a
    cleaned text changes nothing. *)
Theorem parse_num_cleaned (s : pystr) :
  cleaned (cleaned s) = cleaned s
  ∧ parse_num (Some (cleaned s)) = parse_num (Some s).
Proof.
  split; [apply cleaned_idempotent|].
  by rewrite !parse_num_closed, cleaned_idempotent.
Qed.

(** X7: a text made only of whitespace, commas, currency glyphs and percent
    signs parses to 0 and the float conversion is not asked. *)
Theorem parse_num_blank (s : pystr) :
  Forall (λ c, py_isspace c = true ∨ c ∈ [COMMA; SHEKEL; PERCENT]) s →
  cleaned s = [] ∧ parse_num (Some s) = Ret f0.
Proof.
  intros Hs.
  assert (cleaned s = []) as Hc.
  { unfold cleaned, py_strip. rewrite lstrip_blank; [done|].
    apply Forall_forall. intros c Hc. rewrite !elem_of_replace1_nil in Hc.
    destruct Hc as [[[Hc H1] H2] H3].
    rewrite Forall_forall in Hs. destruct (Hs c Hc) as [Hsp|Hin]; [done|].
    apply elem_of_cons in Hin as [->|Hin]; [done|].
    apply elem_of_cons in Hin as [->|Hin]; [done|].
    apply list_elem_of_singleton in Hin as ->. done. }
  split; [done|]. rewrite parse_num_closed, Hc. done.
Qed.

(** *** Headers *)

(** X8: two empty cells of a header row never get the same name: the
    placeholders [col_i] of different columns differ. *)
Theorem placeholder_names_distinct (header : list cell) (i j : nat) (hi hj : cell) :
  i ≠ j →
  header !! i = Some hi → header !! j = Some hj →
  cell_truthy hi = false → cell_truthy hj = false →
  build_headers header !! i = Some (col_ i)
  ∧ build_headers header !! j = Some (col_ j)
  ∧ col_ i ≠ col_ j.
Proof.
  intros Hij Hi Hj Ei Ej. unfold build_headers.
  rewrite !list_lookup_imap, Hi, Hj. simpl. rewrite Ei, Ej.
  split; [done|]. split; [done|]. by intros ?%col_prefix_inj.
Qed.

(** *** Company and VAT total *)

(** X9: a text that holds one of the two Hebrew spellings of the KOT
    identifier gives the KOT company name, and so does its mirror image. *)
Theorem company_mirrored_kot (text : pystr) :
  contains (u "קיי.או.טי") text = true ∨ contains (u "קי.או.טי") text = true →
  extract_company text = KOT_NAME
  ∧ extract_company (reverse text) = KOT_NAME.
Proof.
  intros H.
  assert (∀ (tx p : pystr), p ∈ kot_patterns → contains p tx = true →
                 extract_company tx = KOT_NAME) as Hkot.
  { intros tx p Hp Hc. unfold extract_company.
    assert (existsb (λ p, contains p tx || contains p (py_upper tx)) kot_patterns
            = true) as ->; [|done].
    apply existsb_exists. exists p. split; [by apply list_elem_of_In|].
    by rewrite Hc. }
  destruct H as [H|H].
  - split; [apply (Hkot _ (u "קיי.או.טי")); [elem_of_closed | done]|].
    apply (Hkot _ (reverse (u "קיי.או.טי"))); [elem_of_closed|].
    by rewrite contains_reverse.
  - split; [apply (Hkot _ (u "קי.או.טי")); [elem_of_closed | done]|].
    apply (Hkot _ (reverse (u "קי.או.טי"))); [elem_of_closed|].
    by rewrite contains_reverse.
Qed.

Lemma first_found_elem (pats : list (list item)) (text g : pystr) :
  first_found pats text = Some g →
  ∃ p, p ∈ pats ∧ re_search p text = Some g.
Proof.
  induction pats as [|p pats IH]; simpl; [done|].
  destruct (re_search p text) eqn:E.
  - intros [= ->]. exists p. split; [apply elem_of_cons; by left | done].
  - intros (q & Hq & H)%IH. exists q. split; [apply elem_of_cons; by right | done].
Qed.

Lemma vat_pattern_needs (p : list item) (text g : pystr) :
  p ∈ vat_patterns → re_search p text = Some g →
  contains PAYABLE text = true ∧ ∃ c, c ∈ text ∧ digit_or_comma c = true.
Proof.
  unfold vat_patterns. intros Hp Hg.
  apply elem_of_cons in Hp as [->|Hp]; [|apply elem_of_cons in Hp as [->|Hp]];
    [| |apply list_elem_of_singleton in Hp as ->].
  - split.
    + apply (re_search_needs_word []
               ([Many true false py_isspace] ++ number_group
                  ++ [Many true false py_isspace] ++ lit [SHEKEL])
               PAYABLE text g).
      rewrite <- Hg. reflexivity.
    + apply (re_search_needs_class
               (lit PAYABLE ++ [Many true false py_isspace; Open])
               ([Maybe (N.eqb 46); Many true false py_isdecimal; Close]
                  ++ [Many true false py_isspace] ++ lit [SHEKEL])
               true digit_or_comma text g).
      rewrite <- Hg. reflexivity.
  - split.
    + apply (re_search_needs_word
               (lit [SHEKEL] ++ [Many true false py_isspace] ++ number_group
                  ++ [Many true false py_isspace]) [] PAYABLE text g).
      rewrite <- Hg. reflexivity.
    + apply (re_search_needs_class
               (lit [SHEKEL] ++ [Many true false py_isspace; Open])
               ([Maybe (N.eqb 46); Many true false py_isdecimal; Close]
                  ++ [Many true false py_isspace] ++ lit PAYABLE)
               true digit_or_comma text g).
      rewrite <- Hg. reflexivity.
  - split.
    + apply (re_search_needs_word
               (lit (u "סה") ++ [One dot] ++ lit (u "כ") ++ [Many false false dot])
               ([Many false false dot] ++ number_group) PAYABLE text g).
      rewrite <- Hg. reflexivity.
    + apply (re_search_needs_class
               (lit (u "סה") ++ [One dot] ++ lit (u "כ") ++ [Many false false dot]
                  ++ lit PAYABLE ++ [Many false false dot; Open])
               [Maybe (N.eqb 46); Many true false py_isdecimal; Close]
               true digit_or_comma text g).
      rewrite <- Hg. reflexivity.
Qed.

Lemma extract_vat_total_ret (text : pystr) : ∃ v, extract_vat_total text = Ret v.
Proof.
  unfold extract_vat_total.
  destruct (first_found vat_patterns text); [|by eexists].
  rewrite parse_num_closed. by eexists.
Qed.

(** X10: [extract_vat_total] never raises, and it returns 0 for every text
    that lacks the word for "payable" or that holds neither a decimal digit
    nor a comma. *)
Theorem vat_total_zero (text : pystr) :
  (∃ v, extract_vat_total text = Ret v)
  ∧ (contains PAYABLE text = false ∨ Forall (λ c, digit_or_comma c = false) text →
     extract_vat_total text = Ret f0).
Proof.
  split; [apply extract_vat_total_ret|]. unfold extract_vat_total.
  intros H. destruct (first_found vat_patterns text) as [g|] eqn:E; [|done].
  apply first_found_elem in E as (p & Hp & Hg).
  destruct (vat_pattern_needs p text g Hp Hg) as [Hw (c & Hc & Hd)].
  destruct H as [H|H]; [congruence|].
  rewrite Forall_forall in H. rewrite (H c Hc) in Hd. done.
Qed.

(** *** The whole extraction, again *)

Lemma totals_loop_number (cc bc : option pystr) (ps : list (gmap pystr (pyval F))) d :
  is_number (billed_total d) = true →
  (contract_total d = VInt 0 ∨ val_truthy (contract_total d) = true) →
  ∃ d', for_each (total_step cc bc) ps d = Ret d'
    ∧ phases d' = phases d ∧ headers d' = headers d
    ∧ is_number (billed_total d') = true
    ∧ (contract_total d' = VInt 0 ∨ val_truthy (contract_total d') = true).
Proof.
  revert d. induction ps as [|p ps IH]; intros d Hn Hc; [by exists d|].
  destruct (total_step_ret cc bc d p Hn) as (d1 & Hs & Hp & Hh & Hn1 & Hc1).
  destruct (IH d1 Hn1) as (d' & Hl & Hp' & Hh' & Hn' & Hc').
  { rewrite Hc1. destruct cc as [c|]; [|done].
    destruct (col_truthy (Some c) && get_truthy p c) eqn:E; [|done].
    apply andb_true_iff in E as [_ E]. unfold get_truthy in E.
    destruct (p !! c); [by right | done]. }
  exists d'. simpl. rewrite Hs. simpl.
  repeat split; [done | congruence | congruence | done | done].
Qed.

(** X11: [extract] returns for every list of pages, whatever the tables
    hold (ragged rows, empty tables, [None] cells), and so does the whole
    extraction with the company and the VAT total; [billed_total] is always
    a number, and [contract_total] is the initial 0 or a value with a true
    truth value. *)
Theorem extract_never_raises (pages : list page) :
  ∃ doc,
    extract_document pages = Ret doc
    ∧ extract pages = Ret (tables doc)
    ∧ is_number (billed_total (tables doc)) = true
    ∧ (contract_total (tables doc) = VInt 0
       ∨ val_truthy (contract_total (tables doc)) = true).
Proof.
  assert (∃ d, extract pages = Ret d ∧ is_number (billed_total d) = true
             ∧ (contract_total d = VInt 0 ∨ val_truthy (contract_total d) = true))
    as (d & Hd & Hn & Hc).
  { unfold extract. rewrite tables_loop_ret. simpl.
    case_bool_decide as Hph; [eexists; split; [done|]; simpl; auto|].
    rewrite select_cols_ret. simpl.
    edestruct totals_loop_number as (d' & -> & _ & _ & Hn & Hc);
      [| |by exists d']; simpl; auto. }
  destruct (extract_vat_total_ret (full_text pages)) as [v Hv].
  exists (Document (extract_company (full_text pages)) v d).
  unfold extract_document. rewrite Hv, Hd. done.
Qed.

(** X12: the result has no headers or at least four, and at least four
    whenever it has a phase. *)
Theorem headers_at_least_four (pages : list page) :
  ∃ d,
    extract pages = Ret d
    ∧ (headers d = [] ∨ (4 ≤ length (headers d))%nat)
    ∧ (phases d ≠ [] → (4 ≤ length (headers d))%nat).
Proof.
  destruct (extract_ret pages) as (ct & bt & ->). eexists. split; [done|].
  simpl. destruct (last (List.filter qualifies (all_tables pages))) as [t|] eqn:El.
  - apply last_Some_elem_of, elem_of_filter_bool in El as [_ Hq].
    unfold qualifies in Hq. apply andb_true_iff in Hq as [Hq _].
    apply andb_true_iff in Hq as [_ Hq]. apply Nat.leb_le in Hq.
    rewrite length_build_headers. auto.
  - apply last_None in El. rewrite El. simpl. split; [by left | done].
Qed.

(** X13: when no data row of a qualifying table is kept, the result has the
    headers of the last qualifying table, no phases, and both totals 0. *)
Theorem no_kept_rows (pages : list page) :
  (∀ t row, t ∈ all_tables pages → qualifies t = true →
     row ∈ drop 1 t → row_kept row = false) →
  extract pages =
  Ret (Data (VInt 0) (VInt 0) []
         (match last (List.filter qualifies (all_tables pages)) with
          | Some t => build_headers (header_row t)
          | None => []
          end)).
Proof.
  intros Hrows. unfold extract. rewrite tables_loop_ret. simpl.
  assert (flat_map table_phases (List.filter qualifies (all_tables pages)) = [])
    as ->; [|done].
  apply flat_map_all_nil.
  intros t [Ht Hq]%elem_of_filter_bool.
  unfold table_phases.
  assert (List.filter row_kept (drop 1 t) = []) as ->; [|done].
  apply filter_all_false. intros row Hrow. by apply (Hrows t row).
Qed.

Lemma lookup_put_loop_other hdrs (l : list (nat * cell)) ph (k : pystr) :
  k ∉ (λ ic : nat * cell, col_name hdrs ic.1) <$> l →
  foldl (put_cell hdrs) ph l !! k = ph !! k.
Proof.
  revert ph. induction l as [|ic l IH]; intros ph Hk; [done|].
  rewrite fmap_cons in Hk. apply not_elem_of_cons in Hk as [Hne Hk].
  simpl. rewrite IH by done. unfold put_cell. by rewrite lookup_insert_ne.
Qed.

Lemma lookup_put_loop hdrs (l : list (nat * cell)) ph (i : nat) (c : cell) :
  NoDup ((λ ic : nat * cell, col_name hdrs ic.1) <$> l) →
  (i, c) ∈ l →
  foldl (put_cell hdrs) ph l !! col_name hdrs i = Some (cell_value c).
Proof.
  revert ph. induction l as [|ic l IH]; intros ph Hnd Hin.
  - by apply elem_of_nil in Hin.
  - rewrite fmap_cons in Hnd. apply NoDup_cons in Hnd as [Hni Hnd].
    simpl. apply elem_of_cons in Hin as [<-|Hin].
    + rewrite lookup_put_loop_other by done.
      unfold put_cell. simpl. by rewrite lookup_insert_eq.
    + by apply IH.
Qed.

(** X14: in a kept row that has one cell per header, under headers that
    are all different, every header names the value of its own cell, and
    [_stage] is the value of the last cell. *)
Theorem row_values d row :
  row_kept row = true →
  length row = length (headers d) →
  NoDup (headers d) →
  ∃ ph,
    row_step d row = Ret (append_phase ph d)
    ∧ (∀ i h c, headers d !! i = Some h → row !! i = Some c →
         h ≠ u "_stage" → ph !! h = Some (cell_value c))
    ∧ (∀ c, last row = Some c → ph !! u "_stage" = Some (cell_value c)).
Proof.
  intros Hk Hlen Hnd. exists (row_phase (headers d) row).
  split; [by rewrite row_step_ret, Hk|].
  assert (∀ i h c, headers d !! i = Some h → row !! i = Some c →
            cells_phase (headers d) row !! h = Some (cell_value c)) as Hcells.
  { intros i h c Hh Hc.
    assert (col_name (headers d) i = h) as <- by (unfold col_name; by rewrite Hh).
    apply lookup_put_loop.
    - rewrite row_names by lia. by rewrite take_ge by lia.
    - apply list_elem_of_lookup. exists i.
      by rewrite list_lookup_imap, Hc. }
  unfold row_phase. split.
  - intros i h c Hh Hc Hne. rewrite lookup_insert_ne by done. by eapply Hcells.
  - intros c Hc. rewrite lookup_insert_eq. f_equal.
    rewrite last_lookup in Hc.
    assert (last (headers d) = headers d !! pred (length row)) as Hl
      by by rewrite last_lookup, Hlen.
    destruct (headers d !! pred (length row)) as [h|] eqn:Eh.
    + unfold stage_col. rewrite Hl. simpl. by rewrite (Hcells _ _ _ Eh Hc).
    + apply lookup_ge_None in Eh. apply lookup_lt_Some in Hc. lia.
Qed.

(** *** Output rows *)

Lemma dom_fill_loop ph hdrs (out : gmap pystr (pyval F)) :
  dom (foldl (λ out h, <[h := default (VStr []) (ph !! h)]> out) out hdrs)
  = dom out ∪ list_to_set hdrs.
Proof.
  revert out. induction hdrs as [|h hdrs IH]; intros out; simpl.
  - by rewrite union_empty_r_L.
  - rewrite IH, dom_insert_L.
    rewrite (comm_L (∪) _ (dom out)). by rewrite <- (assoc_L (∪)).
Qed.

Lemma lookup_fill_loop ph hdrs (out : gmap pystr (pyval F)) (h : pystr) :
  foldl (λ out h, <[h := default (VStr []) (ph !! h)]> out) out hdrs !! h
  = if decide (h ∈ hdrs) then Some (default (VStr []) (ph !! h)) else out !! h.
Proof.
  revert out. induction hdrs as [|k hdrs IH]; intros out; [done|].
  simpl. rewrite IH.
  destruct (decide (h ∈ hdrs)) as [Hin|Hnin].
  - rewrite decide_True; [done | apply elem_of_cons; by right].
  - destruct (decide (k = h)) as [->|Hne].
    + rewrite lookup_insert_eq, decide_True; [done | apply elem_of_cons; by left].
    + rewrite lookup_insert_ne by done.
      rewrite decide_False; [done|]. intros [->|?]%elem_of_cons; done.
Qed.

Lemma all_cols_set hdrs :
  list_to_set (C := gset pystr) (all_cols hdrs)
  = list_to_set hdrs ∪ {[ COMPANY_COL ]}.
Proof.
  unfold all_cols. case_bool_decide as Hh.
  - subst hdrs. simpl. by rewrite union_empty_r_L, union_empty_l_L.
  - rewrite list_to_set_app_L. simpl. by rewrite union_empty_r_L.
Qed.

(** X15: every output row has exactly the columns the script gives the
    data frame, the headers and the company column, whatever keys the
    phase itself has. *)
Theorem tracking_rows_keys (doc : document F) (out : gmap pystr (pyval F)) :
  out ∈ (to_tracking_rows doc).1 →
  dom out = list_to_set (all_cols (to_tracking_rows doc).2).
Proof.
  unfold to_tracking_rows. simpl.
  intros (ph & -> & _)%list_elem_of_fmap.
  unfold tracking_row. rewrite dom_insert_L, dom_fill_loop, all_cols_set.
  rewrite dom_empty_L, union_empty_l_L. apply (comm_L (∪)).
Qed.

(** X16: output row [i] is made from phase [i]: its company column holds
    the company, and every other header holds the phase's value under that
    header, or the empty string when the phase has none. *)
Theorem tracking_rows_values (doc : document F) (i : nat) ph :
  phases (tables doc) !! i = Some ph →
  ∃ out,
    (to_tracking_rows doc).1 !! i = Some out
    ∧ length (to_tracking_rows doc).1 = length (phases (tables doc))
    ∧ out !! COMPANY_COL = Some (VStr (company doc))
    ∧ ∀ h, h ∈ headers (tables doc) → h ≠ COMPANY_COL →
        out !! h = Some (default (VStr []) (ph !! h)).
Proof.
  intros Hph. unfold to_tracking_rows. simpl.
  exists (tracking_row (company doc) (headers (tables doc)) ph).
  split; [by rewrite list_lookup_fmap, Hph|].
  split; [by rewrite length_fmap|].
  unfold tracking_row. split; [by rewrite lookup_insert_eq|].
  intros h Hh Hne. rewrite lookup_insert_ne, lookup_fill_loop by done.
  by rewrite decide_True.
Qed.

(** *** Cells and totals, again *)

(** X19: an empty cell, [None] or the empty string, is stored as the empty
    string and not as a number. *)
Theorem empty_cell_stored_as_text hdrs ph (i : nat) (c : cell) :
  cell_truthy c = false →
  store_cell hdrs ph (i, c) = Ret (<[col_name hdrs i := VStr []]> ph).
Proof.
  intros Hc. rewrite store_cell_ret. unfold put_cell, cell_value, raw_value.
  simpl. rewrite Hc.
  change (py_join [SP] (py_split (replace1 CR [SP] (replace1 NL [SP] []))))
    with (@nil N).
  assert (num_value [] = f0) as -> by (unfold num_value; by rewrite parse_num_closed).
  rewrite feq0_f0.
  change (bool_decide (py_strip [] ∈ zero_literals)) with false.
  done.
Qed.

Lemma total_step_billed (cc : option pystr) (b : pystr) d (p : gmap pystr (pyval F)) :
  b ≠ [] →
  is_number (billed_total d) = true →
  ∃ d', total_step cc (Some b) d p = Ret d'
    ∧ is_number (billed_total d') = true
    ∧ for_each py_add (billed_values b [p]) (billed_total d) = Ret (billed_total d').
Proof.
  intros Hb Hn. unfold total_step.
  set (d1 := match cc with
             | Some c => if col_truthy cc && get_truthy p c
                         then set_contract_total (default (contract_total d) (p !! c)) d
                         else d
             | None => d end).
  assert (match cc with
          | Some c => if col_truthy cc && get_truthy p c
                      then v ← getitem p c; Ret (set_contract_total v d) else Ret d
          | None => Ret d end = Ret d1) as ->.
  { subst d1. destruct cc as [c|]; [|done].
    destruct (col_truthy (Some c) && get_truthy p c) eqn:E; [|done].
    apply andb_true_iff in E as [_ E]. unfold get_truthy in E. unfold getitem.
    by destruct (p !! c). }
  assert (billed_total d1 = billed_total d) as Hb1.
  { subst d1. destruct cc as [c|]; [|done]. by destruct (_ && _). }
  clearbody d1.
  assert (col_truthy (Some b) = true) as -> by by destruct b.
  unfold billed_values. simpl.
  destruct (is_number (default (VInt 0) (p !! b))) eqn:Ev; simpl.
  - destruct (py_add_number (billed_total d1) (default (VInt 0) (p !! b)))
      as (t & Ht & Hnt); [by rewrite Hb1 | done |].
    rewrite Ht. simpl. eexists. split; [done|]. simpl.
    split; [done|]. rewrite <- Hb1, Ht. done.
  - exists d1. by rewrite Hb1.
Qed.

Lemma for_each_app {A S} (step : S → A → res S) (l1 l2 : list A) (st st' : S) :
  for_each step l1 st = Ret st' →
  for_each step (l1 ++ l2) st = for_each step l2 st'.
Proof.
  revert st. induction l1 as [|x l1 IH]; intros st; simpl.
  - by intros [= ->].
  - destruct (step st x) as [s1|e]; simpl; [apply IH | done].
Qed.

(** X20: with a billed column, [billed_total] ends as the sum, from the
    initial 0 and in the order of the phases, of the numbers the phases
    hold under that column; text values are passed over and a phase that
    lacks the column adds the integer 0. *)
Theorem billed_total_sum (cc : option pystr) (b : pystr)
    (ps : list (gmap pystr (pyval F))) hdrs :
  b ≠ [] →
  ∃ d,
    for_each (total_step cc (Some b)) ps (Data (VInt 0) (VInt 0) ps hdrs) = Ret d
    ∧ for_each py_add (billed_values b ps) (VInt 0) = Ret (billed_total d).
Proof.
  intros Hb.
  assert (∀ (qs : list (gmap pystr (pyval F))) d0,
            is_number (billed_total d0) = true →
            ∃ d, for_each (total_step cc (Some b)) qs d0 = Ret d
              ∧ for_each py_add (billed_values b qs) (billed_total d0)
                = Ret (billed_total d)) as Hloop.
  { induction qs as [|p qs IH]; intros d0 Hn; [by exists d0|].
    destruct (total_step_billed cc b d0 p Hb Hn) as (d1 & Hs & Hn1 & Hsum).
    destruct (IH d1 Hn1) as (d & Hl & Hsum').
    exists d. simpl. rewrite Hs. simpl. split; [done|].
    assert (billed_values b (p :: qs)
            = billed_values b [p] ++ billed_values b qs) as ->.
    { unfold billed_values. rewrite !fmap_cons, fmap_nil. cbn [List.filter].
      by destruct (is_number (default (VInt 0) (p !! b))). }
    by rewrite (for_each_app _ _ _ _ _ Hsum). }
  by apply (Hloop ps (Data (VInt 0) (VInt 0) ps hdrs)).
Qed.

End MoreProperties.

(** ** The download name *)

Lemma replace_go_absent (old new s : pystr) :
  contains old s = false → replace_go old new 0 s = s.
Proof.
  induction s as [|c r IH]; [done|].
  rewrite contains_cons. intros [Hs Hc]%orb_false_iff.
  simpl. rewrite Hs. by rewrite IH.
Qed.

Lemma starts_with_pdf_app (base : pystr) :
  base ≠ [] →
  starts_with (u ".pdf") (base ++ u ".pdf") = starts_with (u ".pdf") base.
Proof.
  change (u ".pdf") with [46; 112; 100; 102].
  destruct base as [|c1 [|c2 [|c3 [|c4 base]]]]; [done| | | |]; intros _;
    cbn [starts_with app];
    repeat match goal with
           | |- context [?a =? ?b] =>
               lazymatch b with
               | N0 => fail | Npos _ => fail
               | _ => destruct (a =? b)
               end
           end; reflexivity.
Qed.

(** X17: a file name in which [.pdf] does not occur keeps its whole text
    and gets the suffix [_tracking.csv]; the match is case-sensitive. *)
Theorem csv_name_plain (name : pystr) :
  contains (u ".pdf") name = false →
  csv_name name = name ++ u "_tracking.csv".
Proof.
  intros H. unfold csv_name, py_replace. by rewrite replace_go_absent.
Qed.

(** X18: for a name [base.pdf] whose base holds no [.pdf], the download
    name is [base_tracking.csv]. *)
Theorem csv_name_pdf (base : pystr) :
  contains (u ".pdf") base = false →
  csv_name (base ++ u ".pdf") = base ++ u "_tracking.csv".
Proof.
  intros H. unfold csv_name, py_replace. f_equal.
  induction base as [|c base IH]; [reflexivity|].
  rewrite contains_cons in H. apply orb_false_iff in H as [Hs Hc].
  rewrite <- app_comm_cons. cbn [replace_go].
  rewrite (app_comm_cons base), starts_with_pdf_app, Hs by done.
  by rewrite IH.
Qed.

(** ** Concrete inputs for the properties above *)

(** X2, witness. *)
Lemma fix_hebrew_restores_fragment_witness :
  u "םוכס" ∈ reversed_patterns
  ∧ contains (reverse (u "םוכס")) (fix_hebrew (u "  םוכס  x")) = true.
Proof.
  split; [elem_of_closed|].
  apply fix_hebrew_restores_fragment; [elem_of_closed | reflexivity].
Defined.

(** X3, witness. *)
Lemma fix_hebrew_idempotent_witness :
  fix_hebrew (fix_hebrew (u " שלב   תכנון ")) = fix_hebrew (u " שלב   תכנון ").
Proof. apply fix_hebrew_idempotent. reflexivity. Defined.

(** X5, witness. *)
Lemma milestone_column_range_witness :
  GRAND_TOTAL ∈ MILESTONE_COLS ∧ GRAND_TOTAL ∈ COLS.
Proof.
  apply (milestone_column_range (Some (u "שלב: טופס 4"))). reflexivity.
Defined.

(** X6, witness. *)
Lemma milestone_column_mirrored_witness :
  get_milestone_column (Some (u "הגשת ההיתר לוועדה")) = Some (u "51% חתימות")
  ∧ get_milestone_column (Some (reverse (u "הגשת ההיתר לוועדה")))
    = Some (u "51% חתימות").
Proof. apply milestone_column_mirrored; reflexivity. Defined.

(** X7, witness. *)
Lemma parse_num_blank_witness :
  cleaned (u " ₪ , % ") = [] ∧ parse_num (F:=float) (Some (u " ₪ , % ")) = Ret f0.
Proof.
  apply (parse_num_blank (F:=float)). vm_compute.
  repeat (apply Forall_cons; split;
          [first [by left | right; elem_of_closed]|]).
  constructor.
Defined.

(** X8, witness. *)
Lemma placeholder_names_distinct_witness :
  build_headers gappy_header !! 0%nat = Some (col_ 0)
  ∧ build_headers gappy_header !! 2%nat = Some (col_ 2)
  ∧ col_ 0 ≠ col_ 2.
Proof.
  apply (placeholder_names_distinct gappy_header 0 2 None (Some []));
    [lia | reflexivity..].
Defined.

(** X9, witness. *)
Lemma company_mirrored_kot_witness :
  extract_company (u "חברת קיי.או.טי בעמ") = KOT_NAME
  ∧ extract_company (reverse (u "חברת קיי.או.טי בעמ")) = KOT_NAME.
Proof. apply company_mirrored_kot. left. reflexivity. Defined.

(** X10, witness. *)
Lemma vat_total_zero_witness :
  contains PAYABLE (u "סכום 1,180 ₪") = false
  ∧ extract_vat_total (F:=float) (u "סכום 1,180 ₪") = Ret f0.
Proof.
  split; [reflexivity|].
  apply (vat_total_zero (F:=float)). left. reflexivity.
Defined.

Example vat_total_found :
  extract_vat_total (F:=float) invoice_text = Ret 1180%float.
Proof. by vm_compute. Qed.

(** X13, witness. *)
Lemma no_kept_rows_witness :
  extract (F:=float) summary_only =
  Ret (Data (VInt 0) (VInt 0) []
         (match last (List.filter qualifies (all_tables summary_only)) with
          | Some t => build_headers (header_row t)
          | None => []
          end)).
Proof.
  apply (no_kept_rows (F:=float)).
  intros t row Ht%list_elem_of_singleton _ Hrow. subst t.
  apply list_elem_of_singleton in Hrow. by subst row.
Defined.

(** X14, witness. *)
Lemma row_values_witness :
  ∃ ph,
    row_step (F:=float) (Data (VInt 0) (VInt 0) [] plain_headers) full_row
    = Ret (append_phase ph (Data (VInt 0) (VInt 0) [] plain_headers))
    ∧ (∀ i h c, plain_headers !! i = Some h → full_row !! i = Some c →
         h ≠ u "_stage" → ph !! h = Some (cell_value c))
    ∧ (∀ c, last full_row = Some c → ph !! u "_stage" = Some (cell_value c)).
Proof.
  apply (row_values (F:=float) (Data (VInt 0) (VInt 0) [] plain_headers) full_row).
  - reflexivity.
  - reflexivity.
  - simpl. vm_compute.
    repeat (apply NoDup_cons; split;
            [intros H;
             repeat (apply elem_of_cons in H as [H|H]; [discriminate H|]);
             by apply elem_of_nil in H|]).
    apply NoDup_nil. done.
Defined.

(** X15, witness. *)
Lemma tracking_rows_keys_witness :
  dom (tracking_row (F:=float) (u "KOT") plain_headers
         {[ u "סכום" := VFloat 1000%float ]})
  = list_to_set (all_cols plain_headers).
Proof.
  apply (tracking_rows_keys sample_doc).
  apply elem_of_cons. by left.
Defined.

(** X16, witness. *)
Lemma tracking_rows_values_witness :
  ∃ out,
    (to_tracking_rows sample_doc).1 !! 0%nat = Some out
    ∧ length (to_tracking_rows sample_doc).1 = length (phases (tables sample_doc))
    ∧ out !! COMPANY_COL = Some (VStr (company sample_doc))
    ∧ ∀ h, h ∈ headers (tables sample_doc) → h ≠ COMPANY_COL →
        out !! h = Some (default (VStr [])
                           (({[ u "סכום" := VFloat 1000%float ]}
                               : gmap pystr (pyval float)) !! h)).
Proof. apply (tracking_rows_values sample_doc 0). reflexivity. Defined.

(** X17, witness. *)
Lemma csv_name_plain_witness :
  csv_name (u "report.PDF") = u "report.PDF" ++ u "_tracking.csv".
Proof. apply csv_name_plain. reflexivity. Defined.

(** X18, witness. *)
Lemma csv_name_pdf_witness :
  csv_name (u "invoice" ++ u ".pdf") = u "invoice" ++ u "_tracking.csv".
Proof. apply csv_name_pdf. reflexivity. Defined.

(** X19, witness. *)
Lemma empty_cell_stored_as_text_witness :
  store_cell (F:=float) plain_headers ∅ (1%nat, None)
  = Ret (<[col_name plain_headers 1 := VStr []]> ∅).
Proof. apply (empty_cell_stored_as_text (F:=float)). reflexivity. Defined.

(** X20, witness. *)
Lemma billed_total_sum_witness :
  ∃ d,
    for_each (total_step None (Some (u "סכום"))) amount_phases
      (Data (VInt 0) (VInt 0) amount_phases plain_headers) = Ret d
    ∧ for_each py_add (billed_values (u "סכום") amount_phases) (VInt 0)
      = Ret (billed_total d).
Proof. apply (billed_total_sum (F:=float)). done. Defined.

Example billed_total_is_3000 :
  for_each py_add (billed_values (F:=float) (u "סכום") amount_phases) (VInt 0)
  = Ret (VFloat 3000%float).
Proof. by vm_compute. Qed.
